(** * tsconfig-type: the syntax-tree rewrite pipeline of the generation script

    A shallow embedding of the two variants of the generation script
    ([action.ts] and the later [index.ts] variant) and of the part of the
    TypeScript compiler API they are written against ([ts.visitEachChild],
    the node factory and the node tests), with the properties of the
    rewrite passes, of the composed transformer and of the release tail
    of [main].

    Trees are taken up to the parentheses of the node factory.  When
    [ts.factory] builds a union, an intersection or an array type node
    anew, it wraps a member that is itself a union or an intersection in
    a parenthesized type node; an [update] function whose arguments are
    the nodes it was given returns the node it was given.  The embedding
    rebuilds with the visited children as they are and keeps no account
    of node identity, so a tree of the embedding is the tree of the
    script without the parentheses that the factory adds.  Where a
    property would depend on them, it is stated through
    [withoutParentheses], leaves or node kinds, which such parentheses
    do not change. *)

From Stdlib Require Import List String Bool Arith ZArith Lia.
Import ListNotations.
Open Scope string_scope.
Open Scope list_scope.

Set Warnings "-register-all".

(** ** The syntax tree *)

(** The token kinds of [ts.SyntaxKind] that the generated declarations use:
    type keywords, modifier keywords and the literal keywords.  A node of
    one of these kinds has no children. *)
Module SyntaxKind.
Inductive t : Set :=
| StringKeyword | UnknownKeyword | NumberKeyword | BooleanKeyword
| AnyKeyword | NullKeyword | TrueKeyword | FalseKeyword
| ExportKeyword | DeclareKeyword | ReadonlyKeyword.

Definition eqb (a b : t) : bool :=
  match a, b with
  | StringKeyword, StringKeyword | UnknownKeyword, UnknownKeyword
  | NumberKeyword, NumberKeyword | BooleanKeyword, BooleanKeyword
  | AnyKeyword, AnyKeyword | NullKeyword, NullKeyword
  | TrueKeyword, TrueKeyword | FalseKeyword, FalseKeyword
  | ExportKeyword, ExportKeyword | DeclareKeyword, DeclareKeyword
  | ReadonlyKeyword, ReadonlyKeyword => true
  | _, _ => false
  end.
End SyntaxKind.

(** [ts.Node], restricted to the node kinds of a declaration file as
    [json-schema-to-typescript] prints it, and the type parameters of an
    interface.  An optional [NodeArray]
    ([decorators], [modifiers], [typeParameters], ...) is an
    [option (list Node)], an optional child an [option Node]; the question
    token of a member carries no data and is a [bool]. *)
Inductive Node : Type :=
| Token (kind : SyntaxKind.t)
| Identifier (text : string)
| StringLiteral (text : string)
| NumericLiteral (text : string)
| LiteralTypeNode (literal : Node)
| UnionTypeNode (types : list Node)
| IntersectionTypeNode (types : list Node)
| ParenthesizedTypeNode (type : Node)
| TypeLiteralNode (members : list Node)
| ArrayTypeNode (elementType : Node)
| TypeReferenceNode (typeName : Node) (typeArguments : option (list Node))
| PropertySignature (modifiers : option (list Node)) (name : Node)
    (questionToken : bool) (type : option Node)
| IndexSignatureDeclaration (decorators modifiers : option (list Node))
    (parameters : list Node) (type : Node)
| ParameterDeclaration (decorators modifiers : option (list Node))
    (dotDotDotToken : bool) (name : Node) (questionToken : bool)
    (type : option Node) (initializer : option Node)
| TypeAliasDeclaration (decorators modifiers : option (list Node))
    (name : Node) (typeParameters : option (list Node)) (type : Node)
| InterfaceDeclaration (decorators modifiers : option (list Node))
    (name : Node) (typeParameters heritageClauses : option (list Node))
    (members : list Node)
| EmptyStatement
| SourceFile (statements : list Node)
| TypeParameterDeclaration (name : Node) (constraint : option Node)
    (default : option Node).

(** [node.kind === ts.SyntaxKind.K] for a token kind [K]. *)
Definition hasKind (k : SyntaxKind.t) (node : Node) : bool :=
  match node with
  | Token k' => SyntaxKind.eqb k' k
  | _ => false
  end.

(** [optional?.kind === ts.SyntaxKind.K]: false on [undefined]. *)
Definition optHasKind (k : SyntaxKind.t) (node : option Node) : bool :=
  match node with
  | Some n => hasKind k n
  | None => false
  end.

Definition isSourceFile (node : Node) : bool :=
  match node with SourceFile _ => true | _ => false end.
Definition isUnionTypeNode (node : Node) : bool :=
  match node with UnionTypeNode _ => true | _ => false end.
Definition isIntersectionTypeNode (node : Node) : bool :=
  match node with IntersectionTypeNode _ => true | _ => false end.
Definition isParenthesizedTypeNode (node : Node) : bool :=
  match node with ParenthesizedTypeNode _ => true | _ => false end.
Definition isTypeLiteralNode (node : Node) : bool :=
  match node with TypeLiteralNode _ => true | _ => false end.
Definition isInterfaceDeclaration (node : Node) : bool :=
  match node with InterfaceDeclaration _ _ _ _ _ _ => true | _ => false end.
Definition isTypeAliasDeclaration (node : Node) : bool :=
  match node with TypeAliasDeclaration _ _ _ _ _ => true | _ => false end.
Definition isIndexSignatureDeclaration (node : Node) : bool :=
  match node with IndexSignatureDeclaration _ _ _ _ => true | _ => false end.

(** ** [ts.visitEachChild] *)

(** A visitor returns a node or [undefined] ([VisitResult<Node>]; none of
    the visitors of the script returns an array). *)
Definition Visitor := Node -> option Node.

Section VisitEachChild.
Variable visitor : Visitor.

(** [visitNodes]: an element visited to [undefined] is dropped. *)
Fixpoint visitNodes (nodes : list Node) : list Node :=
  match nodes with
  | [] => []
  | n :: rest =>
      match visitor n with
      | Some v => v :: visitNodes rest
      | None => visitNodes rest
      end
  end.

(** [visitNodes] on an optional array: [undefined] stays [undefined]. *)
Definition visitNodesOpt (nodes : option (list Node)) : option (list Node) :=
  match nodes with
  | Some l => Some (visitNodes l)
  | None => None
  end.

(** [visitNode] on an optional child. *)
Definition visitNodeOpt (node : option Node) : option Node :=
  match node with
  | Some n => visitor n
  | None => None
  end.

(** [visitNode] on a required child.  TypeScript types the result as a
    node; a visitor that answers [undefined] here would leave the slot
    empty, which is no value of the declared tree type.  The only visitor
    of the script that answers [undefined] (in [removeWideStrings]) runs
    on union and intersection nodes, which have no such child, so the
    second branch is never taken (see [visitNode_total]). *)
Definition visitNode (node : Node) : Node :=
  match visitor node with
  | Some v => v
  | None => node
  end.

(** [ts.visitEachChild(node, visitor, ctx)]: tokens, identifiers and
    literals are returned as they are; every other node is rebuilt by
    its [update] factory from its visited children.  Question and
    dot-dot-dot tokens go through the (absent) token visitor.  The
    parenthesized type nodes that the [update] factory of a union, an
    intersection or an array type puts around a member that is a union
    or an intersection are left out: the rebuilt node has the visited
    children as they are. *)
Definition visitEachChild (node : Node) : Node :=
  match node with
  | Token _ | Identifier _ | StringLiteral _ | NumericLiteral _
  | EmptyStatement => node
  | LiteralTypeNode literal => LiteralTypeNode (visitNode literal)
  | UnionTypeNode types => UnionTypeNode (visitNodes types)
  | IntersectionTypeNode types => IntersectionTypeNode (visitNodes types)
  | ParenthesizedTypeNode type => ParenthesizedTypeNode (visitNode type)
  | TypeLiteralNode members => TypeLiteralNode (visitNodes members)
  | ArrayTypeNode elementType => ArrayTypeNode (visitNode elementType)
  | TypeReferenceNode typeName typeArguments =>
      TypeReferenceNode (visitNode typeName) (visitNodesOpt typeArguments)
  | PropertySignature modifiers name questionToken type =>
      PropertySignature (visitNodesOpt modifiers) (visitNode name)
        questionToken (visitNodeOpt type)
  | IndexSignatureDeclaration decorators modifiers parameters type =>
      IndexSignatureDeclaration (visitNodesOpt decorators)
        (visitNodesOpt modifiers) (visitNodes parameters) (visitNode type)
  | ParameterDeclaration decorators modifiers dots name questionToken type init =>
      ParameterDeclaration (visitNodesOpt decorators)
        (visitNodesOpt modifiers) dots (visitNode name) questionToken
        (visitNodeOpt type) (visitNodeOpt init)
  | TypeAliasDeclaration decorators modifiers name typeParameters type =>
      TypeAliasDeclaration (visitNodesOpt decorators)
        (visitNodesOpt modifiers) (visitNode name)
        (visitNodesOpt typeParameters) (visitNode type)
  | InterfaceDeclaration decorators modifiers name typeParameters
      heritageClauses members =>
      InterfaceDeclaration (visitNodesOpt decorators)
        (visitNodesOpt modifiers) (visitNode name)
        (visitNodesOpt typeParameters) (visitNodesOpt heritageClauses)
        (visitNodes members)
  | SourceFile statements => SourceFile (visitNodes statements)
  | TypeParameterDeclaration name constraint default =>
      TypeParameterDeclaration (visitNode name) (visitNodeOpt constraint)
        (visitNodeOpt default)
  end.
End VisitEachChild.

(** ** Accessors and array helpers *)

(** [node.type]: the nodes with a [type] property. *)
Definition typeOf (node : Node) : option Node :=
  match node with
  | ParenthesizedTypeNode type => Some type
  | PropertySignature _ _ _ type => type
  | IndexSignatureDeclaration _ _ _ type => Some type
  | ParameterDeclaration _ _ _ _ _ type _ => type
  | TypeAliasDeclaration _ _ _ _ type => Some type
  | _ => None
  end.

(** [node.text]: identifiers and literals. *)
Definition textOf (node : Node) : option string :=
  match node with
  | Identifier text | StringLiteral text | NumericLiteral text => Some text
  | _ => None
  end.

(** [array[i]] for an integer index: [undefined] out of range, also
    below zero. *)
Definition at_index {A : Type} (array : list A) (i : Z) : option A :=
  if (i <? 0)%Z then None else nth_error array (Z.to_nat i).

(** A node is truthy; [undefined] is not. *)
Definition truthy {A : Type} (x : option A) : bool :=
  match x with Some _ => true | None => false end.

Section Reduce.
Context {A B : Type}.
Variable callback : B -> A -> Z -> B.

Fixpoint reduceFrom (i : Z) (array : list A) (acc : B) : B :=
  match array with
  | [] => acc
  | cur :: rest => reduceFrom (i + 1) rest (callback acc cur i)
  end.

(** [array.reduce(callback, initial)], the callback taking the
    accumulator, the element and its index. *)
Definition reduce (array : list A) (initial : B) : B :=
  reduceFrom 0 array initial.
End Reduce.

Section FilterThenMap.
Context {A B : Type}.
Variables (keep : A -> bool) (f : A -> B).

(** [array.filter(keep).map(f)] as one traversal of [array]. *)
Fixpoint filterThenMap (array : list A) : list B :=
  match array with
  | [] => []
  | x :: rest =>
      if keep x then f x :: filterThenMap rest else filterThenMap rest
  end.
End FilterThenMap.

(** ** The passes shared by the two variants of the script *)

(** [removeWideStrings].  The union or intersection is rebuilt by
    [visitEachChild], hence without the parentheses that the factory
    puts back around a member that was unwrapped to a union or an
    intersection. *)
Fixpoint removeWideStrings (node : Node) : Node :=
  match node with
  | IntersectionTypeNode _ | UnionTypeNode _ =>
      visitEachChild
        (fun child =>
           if hasKind SyntaxKind.StringKeyword child then None
           else Some (removeWideStrings child))
        node
  | ParenthesizedTypeNode type => removeWideStrings type
  | _ => node
  end.

(** [intersectsWithStringLiteral]. *)
Fixpoint intersectsWithStringLiteral (node : Node) : bool :=
  match node with
  | LiteralTypeNode literal =>
      match literal with StringLiteral _ => true | _ => false end
  | _ => false
  end
  || match node with
     | UnionTypeNode types | IntersectionTypeNode types =>
         existsb intersectsWithStringLiteral types
     | _ => false
     end
  || match node with
     | ParenthesizedTypeNode type => intersectsWithStringLiteral type
     | _ => false
     end.

(** The filter callback of [removeStandaloneUnknownRecsInUnions]: whether
    a member of a union is kept. *)
Definition keepInUnion (type : Node) : bool :=
  match type with
  | TypeLiteralNode [firstMember] =>
      match firstMember with
      | IndexSignatureDeclaration _ _ [parameter] _ =>
          if optHasKind SyntaxKind.StringKeyword (typeOf parameter)
          then false else true
      | _ => true
      end
  | _ => true
  end.

(** [removeStandaloneUnknownRecsInUnions]: on a union, the members are
    filtered by [keepInUnion] and the children of each kept member are
    visited; on any other node its children are visited.  The union is
    built of the kept members as they are: the parentheses that
    [ts.factory.updateUnionTypeNode] puts around a member that is a
    union or an intersection are left out. *)
Fixpoint removeStandaloneUnknownRecsInUnions (node : Node) : Node :=
  match node with
  | UnionTypeNode types =>
      UnionTypeNode
        (filterThenMap keepInUnion
           (fun type =>
              visitEachChild
                (fun child => Some (removeStandaloneUnknownRecsInUnions child))
                type)
           types)
  | _ =>
      visitEachChild
        (fun child => Some (removeStandaloneUnknownRecsInUnions child)) node
  end.

(** The test of [removeUnknownIndexSignatures] on a member [cur] at index
    [i] of [members]: a string-keyed index signature of value type
    [unknown] that has a sibling before or after it. *)
Definition isRemovableIndexSignature (members : list Node) (cur : Node) (i : Z)
  : bool :=
  match cur with
  | IndexSignatureDeclaration _ _ parameters type =>
      optHasKind SyntaxKind.StringKeyword
        (match at_index parameters 0 with
         | Some parameter => typeOf parameter
         | None => None
         end)
      && hasKind SyntaxKind.UnknownKeyword type
      && (truthy (at_index members (i - 1)) || truthy (at_index members (i + 1)))
  | _ => false
  end.

(** The member list that [removeUnknownIndexSignatures] computes for an
    interface or a type literal with [members], [recurse] being the pass
    itself. *)
Definition keptMembers (recurse : Node -> Node) (members : list Node)
  : list Node :=
  reduce
    (fun acc cur i =>
       if isRemovableIndexSignature members cur i then acc
       else acc ++ [recurse cur])
    members [].

(** The size of a tree, the measure of the recursion of
    [removeStringMergedWithStringLiterals]. *)
Section Size.
Variable size : Node -> nat.
Definition sizeNodes (nodes : list Node) : nat := list_sum (map size nodes).
Definition sizeNodesOpt (nodes : option (list Node)) : nat :=
  match nodes with Some l => list_sum (map size l) | None => 0 end.
Definition sizeNodeOpt (node : option Node) : nat :=
  match node with Some n => size n | None => 0 end.
End Size.

Fixpoint size (node : Node) : nat :=
  S match node with
    | Token _ | Identifier _ | StringLiteral _ | NumericLiteral _
    | EmptyStatement => 0
    | LiteralTypeNode literal => size literal
    | UnionTypeNode types | IntersectionTypeNode types => sizeNodes size types
    | ParenthesizedTypeNode type => size type
    | TypeLiteralNode members => sizeNodes size members
    | ArrayTypeNode elementType => size elementType
    | TypeReferenceNode typeName typeArguments =>
        size typeName + sizeNodesOpt size typeArguments
    | PropertySignature modifiers name _ type =>
        sizeNodesOpt size modifiers + size name + sizeNodeOpt size type
    | IndexSignatureDeclaration decorators modifiers parameters type =>
        sizeNodesOpt size decorators + sizeNodesOpt size modifiers
        + sizeNodes size parameters + size type
    | ParameterDeclaration decorators modifiers _ name _ type init =>
        sizeNodesOpt size decorators + sizeNodesOpt size modifiers
        + size name + sizeNodeOpt size type + sizeNodeOpt size init
    | TypeAliasDeclaration decorators modifiers name typeParameters type =>
        sizeNodesOpt size decorators + sizeNodesOpt size modifiers
        + size name + sizeNodesOpt size typeParameters + size type
    | InterfaceDeclaration decorators modifiers name typeParameters
        heritageClauses members =>
        sizeNodesOpt size decorators + sizeNodesOpt size modifiers
        + size name + sizeNodesOpt size typeParameters
        + sizeNodesOpt size heritageClauses + sizeNodes size members
    | SourceFile statements => sizeNodes size statements
    | TypeParameterDeclaration name constraint default =>
        size name + sizeNodeOpt size constraint + sizeNodeOpt size default
    end.

(** The children of a node that [ts.visitEachChild] hands to the visitor,
    in the order of the visit. *)
Definition nodesOpt (nodes : option (list Node)) : list Node :=
  match nodes with Some l => l | None => [] end.

Definition nodeOpt (node : option Node) : list Node :=
  match node with Some n => [n] | None => [] end.

Definition children (node : Node) : list Node :=
  match node with
  | Token _ | Identifier _ | StringLiteral _ | NumericLiteral _
  | EmptyStatement => []
  | LiteralTypeNode literal => [literal]
  | UnionTypeNode types | IntersectionTypeNode types => types
  | ParenthesizedTypeNode type => [type]
  | TypeLiteralNode members => members
  | ArrayTypeNode elementType => [elementType]
  | TypeReferenceNode typeName typeArguments =>
      typeName :: nodesOpt typeArguments
  | PropertySignature modifiers name _ type =>
      nodesOpt modifiers ++ name :: nodeOpt type
  | IndexSignatureDeclaration decorators modifiers parameters type =>
      nodesOpt decorators ++ nodesOpt modifiers ++ parameters ++ [type]
  | ParameterDeclaration decorators modifiers _ name _ type init =>
      nodesOpt decorators ++ nodesOpt modifiers ++ name :: nodeOpt type
      ++ nodeOpt init
  | TypeAliasDeclaration decorators modifiers name typeParameters type =>
      nodesOpt decorators ++ nodesOpt modifiers ++ name
      :: nodesOpt typeParameters ++ [type]
  | InterfaceDeclaration decorators modifiers name typeParameters
      heritageClauses members =>
      nodesOpt decorators ++ nodesOpt modifiers ++ name
      :: nodesOpt typeParameters ++ nodesOpt heritageClauses ++ members
  | SourceFile statements => statements
  | TypeParameterDeclaration name constraint default =>
      name :: nodeOpt constraint ++ nodeOpt default
  end.

(** [removeStringMergedWithStringLiterals] calls itself on the result of
    [removeWideStrings], which is no subterm of its argument: the
    recursion is on a bound of the depth of the calls.  With no calls
    left the node is returned as it is. *)
Fixpoint removeStringMergedWithStringLiterals_bounded
  (calls : nat) (node : Node) : Node :=
  match calls with
  | 0 => node
  | S calls' =>
      visitEachChild
        (fun child =>
           if intersectsWithStringLiteral child then
             Some (removeStringMergedWithStringLiterals_bounded calls'
                     (removeWideStrings child))
           else
             Some (removeStringMergedWithStringLiterals_bounded calls' child))
        node
  end.

(** [removeStringMergedWithStringLiterals]: the size of the node bounds
    the depth of the calls ([removeStringMergedWithStringLiterals_eq]
    is the equation of the source). *)
Definition removeStringMergedWithStringLiterals (node : Node) : Node :=
  removeStringMergedWithStringLiterals_bounded (size node) node.

(** The callback that [removeStringMergedWithStringLiterals] hands to
    [ts.visitEachChild]. *)
Definition visitStringMerged (child : Node) : option Node :=
  if intersectsWithStringLiteral child then
    Some (removeStringMergedWithStringLiterals (removeWideStrings child))
  else
    Some (removeStringMergedWithStringLiterals child).

(** The callback of [removeWideStrings] on a union or an intersection. *)
Definition visitWideStrings (child : Node) : option Node :=
  if hasKind SyntaxKind.StringKeyword child then None
  else Some (removeWideStrings child).

(** ** The transformer *)

(** How a call ends: it returns a value or throws an error with a
    message. *)
Inductive Outcome (A : Type) : Type :=
| Returned (value : A)
| Thrown (message : string).
Arguments Returned {A} value.
Arguments Thrown {A} message.

(** [transformer], over the list that [getTransformerFactories] returns:
    the reducer throws [new Error()] as soon as a pass returns a node
    that is not a source file. *)
Definition transformerOver (factories : list (Node -> Node)) (sourceFile : Node)
  : Outcome Node :=
  fold_left
    (fun result transform =>
       match result with
       | Returned result =>
           let nextResult := transform result in
           if negb (isSourceFile nextResult) then Thrown ""
           else Returned nextResult
       | Thrown message => Thrown message
       end)
    factories (Returned sourceFile).

(** What the passes of a list, each run on the result of the one before,
    make of a node, with no check in between. *)
Definition applyAll (factories : list (Node -> Node)) (node : Node) : Node :=
  fold_left (fun result transform => transform result) factories node.

(** ** The [action.ts] variant *)

Module ActionTs.

(** [renameTsconfigTypeAndRemoveOtherExports]. *)
Definition renameTsconfigTypeAndRemoveOtherExports (sourceFile : Node) : Node :=
  visitEachChild
    (fun statement =>
       match statement with
       | TypeAliasDeclaration decorators modifiers _ typeParameters type =>
           Some (TypeAliasDeclaration decorators modifiers
                   (Identifier "Tsconfig") typeParameters type)
       | InterfaceDeclaration decorators modifiers name typeParameters
           heritageClauses members =>
           Some (InterfaceDeclaration decorators
                   (option_map (filter (hasKind SyntaxKind.ExportKeyword))
                      modifiers)
                   name typeParameters heritageClauses members)
       | _ => Some statement
       end)
    sourceFile.

(** [removeUnknownIndexSignatures]: a rebuilt interface gets [undefined]
    for its decorators, modifiers, type parameters and heritage
    clauses. *)
Fixpoint removeUnknownIndexSignatures (node : Node) : Node :=
  visitEachChild
    (fun child =>
       match child with
       | InterfaceDeclaration _ _ name _ _ members =>
           let nextMembers := keptMembers removeUnknownIndexSignatures members in
           Some (InterfaceDeclaration None None name None None nextMembers)
       | TypeLiteralNode members =>
           let nextMembers := keptMembers removeUnknownIndexSignatures members in
           Some (TypeLiteralNode nextMembers)
       | _ => Some (removeUnknownIndexSignatures child)
       end)
    node.

(** The callback that [removeUnknownIndexSignatures] hands to
    [ts.visitEachChild]. *)
Definition visitUnknownIndexSignatures (child : Node) : option Node :=
  match child with
  | InterfaceDeclaration _ _ name _ _ members =>
      let nextMembers := keptMembers removeUnknownIndexSignatures members in
      Some (InterfaceDeclaration None None name None None nextMembers)
  | TypeLiteralNode members =>
      let nextMembers := keptMembers removeUnknownIndexSignatures members in
      Some (TypeLiteralNode nextMembers)
  | _ => Some (removeUnknownIndexSignatures child)
  end.

Definition getTransformerFactories : list (Node -> Node) :=
  [ renameTsconfigTypeAndRemoveOtherExports;
    removeStandaloneUnknownRecsInUnions;
    removeStringMergedWithStringLiterals;
    removeUnknownIndexSignatures ].

Definition transformer (sourceFile : Node) : Outcome Node :=
  transformerOver getTransformerFactories sourceFile.

End ActionTs.

(** ** The [index.ts] variant *)

Module IndexTs.

(** The property that [attachSchemaPropToTopLevel] creates:
    [$schema?: "https://json.schemastore.org/tsconfig.json"]. *)
Definition schemaProp : Node :=
  PropertySignature None (Identifier "$schema") true
    (Some (LiteralTypeNode
             (StringLiteral "https://json.schemastore.org/tsconfig.json"))).

(** [attachSchemaPropToTopLevel]. *)
Definition attachSchemaPropToTopLevel (sourceFile : Node) : Node :=
  visitEachChild
    (fun statement =>
       match statement with
       | InterfaceDeclaration decorators modifiers name typeParameters
           heritageClauses members =>
           if match textOf name with
              | Some text => String.eqb text "CompilerOptionsDefinition"
              | None => false
              end
           then
             Some (InterfaceDeclaration decorators modifiers name
                     typeParameters heritageClauses (schemaProp :: members))
           else Some statement
       | _ => Some statement
       end)
    sourceFile.

(** [unionsToIntersections].  The intersection is built of the rewritten
    members as they are: the parentheses that
    [ts.factory.createIntersectionTypeNode] puts around a member that
    is a union or an intersection are left out. *)
Fixpoint unionsToIntersections (node : Node) : Node :=
  visitEachChild
    (fun child =>
       match child with
       | UnionTypeNode types =>
           Some (IntersectionTypeNode (map unionsToIntersections types))
       | _ => Some (unionsToIntersections child)
       end)
    node.

(** [renameTsconfigTypeForceIntersectionsRemoveOtherExports]. *)
Definition renameTsconfigTypeForceIntersectionsRemoveOtherExports
  (sourceFile : Node) : Node :=
  visitEachChild
    (fun statement =>
       match statement with
       | TypeAliasDeclaration decorators modifiers _ typeParameters type =>
           Some (TypeAliasDeclaration decorators modifiers
                   (Identifier "Tsconfig") typeParameters
                   (unionsToIntersections type))
       | InterfaceDeclaration decorators modifiers name typeParameters
           heritageClauses members =>
           Some (InterfaceDeclaration decorators
                   (option_map (filter (hasKind SyntaxKind.ExportKeyword))
                      modifiers)
                   name typeParameters heritageClauses members)
       | _ => Some statement
       end)
    sourceFile.

(** [removeUnknownIndexSignatures]: a rebuilt interface keeps its
    decorators, modifiers, name, type parameters and heritage clauses. *)
Fixpoint removeUnknownIndexSignatures (node : Node) : Node :=
  visitEachChild
    (fun child =>
       match child with
       | InterfaceDeclaration decorators modifiers name typeParameters
           heritageClauses members =>
           let keep := keptMembers removeUnknownIndexSignatures members in
           Some (InterfaceDeclaration decorators modifiers name
                   typeParameters heritageClauses keep)
       | TypeLiteralNode members =>
           let keep := keptMembers removeUnknownIndexSignatures members in
           Some (TypeLiteralNode keep)
       | _ => Some (removeUnknownIndexSignatures child)
       end)
    node.

(** The callback that [removeUnknownIndexSignatures] hands to
    [ts.visitEachChild]. *)
Definition visitUnknownIndexSignatures (child : Node) : option Node :=
  match child with
  | InterfaceDeclaration decorators modifiers name typeParameters
      heritageClauses members =>
      let keep := keptMembers removeUnknownIndexSignatures members in
      Some (InterfaceDeclaration decorators modifiers name
              typeParameters heritageClauses keep)
  | TypeLiteralNode members =>
      let keep := keptMembers removeUnknownIndexSignatures members in
      Some (TypeLiteralNode keep)
  | _ => Some (removeUnknownIndexSignatures child)
  end.

(** What the callback of [unionsToIntersections] answers on a child
    (up to the same parentheses). *)
Definition visitUnion (child : Node) : Node :=
  match child with
  | UnionTypeNode types =>
      IntersectionTypeNode (map unionsToIntersections types)
  | _ => unionsToIntersections child
  end.

Definition getTransformerFactories : list (Node -> Node) :=
  [ attachSchemaPropToTopLevel;
    renameTsconfigTypeForceIntersectionsRemoveOtherExports;
    removeStandaloneUnknownRecsInUnions;
    removeStringMergedWithStringLiterals;
    removeUnknownIndexSignatures ].

Definition transformer (sourceFile : Node) : Outcome Node :=
  transformerOver getTransformerFactories sourceFile.

End IndexTs.

(** ** The release tail of [main] *)

(** The shell commands that the two variants run through [cp.execSync]. *)
Inductive Command : Set :=
| GitConfigUserEmail
| GitConfigUserName
| GitAddAll
| GitCommitFeat
| GitCommitChore
| GitPushFollowTags
| GitPushFollowTagsAndNpmPublish.

(** What is written to a file: [JSON.stringify({checksum})] or a text. *)
Inductive FileData : Set :=
| ChecksumRecord (checksum : string)
| Text (source : string).

(** The effects of [main] after the source has been formatted.
    [StandardVersion] is a run of standard-version that [main] awaits;
    [StandardVersionStarted] is the call [sv(...)] whose promise [main]
    drops: the call returns at once, the bump, commit and tag of
    standard-version come after the synchronous rest of [main], and its
    failure rejects a promise that [main] never looks at. *)
Inductive Effect : Set :=
| WriteFile (path : string) (data : FileData)
| ExecSync (command : Command)
| StandardVersion (skipChangelog : bool)
| StandardVersionStarted (skipChangelog : bool).

(** A script performs a sequence of effects and returns or throws. *)
Definition Script (A : Type) : Type := (list Effect * Outcome A)%type.

Definition ret {A : Type} (a : A) : Script A := ([], Returned a).

Definition throw (A : Type) (message : string) : Script A := ([], Thrown message).

Definition bind {A B : Type} (m : Script A) (k : A -> Script B) : Script B :=
  match m with
  | (done, Returned a) => let (more, outcome) := k a in (done ++ more, outcome)
  | (done, Thrown message) => (done, Thrown message)
  end.

Notation "m ;; k" := (bind m (fun _ => k))
  (at level 61, right associativity).

Definition when (condition : bool) (body : Script unit) : Script unit :=
  if condition then body else ret tt.

Fixpoint forEach {A : Type} (body : A -> Script unit) (array : list A)
  : Script unit :=
  match array with
  | [] => ret tt
  | x :: rest => body x ;; forEach body rest
  end.

Section Main.
(** The digest [crypto.createHash("md5").update(s).digest("hex")], and
    whether an effect succeeds when the script reaches it; a failed
    write or command throws and leaves no trace. *)
Variable md5 : string -> string.
Variable succeeds : Effect -> bool.

Definition perform (e : Effect) : Script unit :=
  if succeeds e then ([e], Returned tt) else throw unit "effect failed".

(** A call whose promise is not awaited: it cannot throw into [main]. *)
Definition start (e : Effect) : Script unit := ([e], Returned tt).

(** [main] of action.ts, from the formatted source on.  [sv] is called
    without [await], between the commit and the push. *)
Definition main_action (inDevelopment : bool)
  (previousChecksum transformedSourceFormatted : string) : Script unit :=
  when (negb inDevelopment)
    (let checksum := md5 transformedSourceFormatted in
     when (String.eqb checksum previousChecksum)
       (throw unit "Already released this version.") ;;
     perform (WriteFile "checksum.json" (ChecksumRecord checksum))) ;;
  perform (WriteFile "the_type.d.ts" (Text transformedSourceFormatted)) ;;
  when (negb inDevelopment)
    (perform (ExecSync GitAddAll) ;;
     perform (ExecSync GitCommitFeat) ;;
     start (StandardVersionStarted false) ;;
     perform (ExecSync GitPushFollowTagsAndNpmPublish)).

(** [main] of index.ts, from the formatted source on.  [sv] is
    awaited. *)
Definition main_index (devMode : bool)
  (previousChecksum transformedSourceFormatted : string) : Script unit :=
  when (negb devMode)
    (let checksum := md5 transformedSourceFormatted in
     when (String.eqb checksum previousChecksum)
       (throw unit "Already released this version.") ;;
     perform (WriteFile "checksum.json" (ChecksumRecord checksum))) ;;
  perform (WriteFile "the_type.d.ts" (Text transformedSourceFormatted)) ;;
  when (negb devMode)
    (forEach (fun command => perform (ExecSync command))
       [GitConfigUserEmail; GitConfigUserName; GitAddAll; GitCommitChore] ;;
     perform (StandardVersion true) ;;
     perform (ExecSync GitPushFollowTags)).
End Main.

(** ** Notions used to state the properties *)

Section Anywhere.
Variable p : Node -> bool.

Definition anyNodesOpt (rec : Node -> bool) (nodes : option (list Node)) : bool :=
  match nodes with Some l => existsb rec l | None => false end.

Definition anyNodeOpt (rec : Node -> bool) (node : option Node) : bool :=
  match node with Some n => rec n | None => false end.

(** [p] holds of the node or of a node below it. *)
Fixpoint anywhere (node : Node) : bool :=
  p node
  || match node with
     | Token _ | Identifier _ | StringLiteral _ | NumericLiteral _
     | EmptyStatement => false
     | LiteralTypeNode literal => anywhere literal
     | UnionTypeNode types | IntersectionTypeNode types =>
         existsb anywhere types
     | ParenthesizedTypeNode type => anywhere type
     | TypeLiteralNode members => existsb anywhere members
     | ArrayTypeNode elementType => anywhere elementType
     | TypeReferenceNode typeName typeArguments =>
         anywhere typeName || anyNodesOpt anywhere typeArguments
     | PropertySignature modifiers name _ type =>
         anyNodesOpt anywhere modifiers || anywhere name
         || anyNodeOpt anywhere type
     | IndexSignatureDeclaration decorators modifiers parameters type =>
         anyNodesOpt anywhere decorators || anyNodesOpt anywhere modifiers
         || existsb anywhere parameters || anywhere type
     | ParameterDeclaration decorators modifiers _ name _ type init =>
         anyNodesOpt anywhere decorators || anyNodesOpt anywhere modifiers
         || anywhere name || anyNodeOpt anywhere type
         || anyNodeOpt anywhere init
     | TypeAliasDeclaration decorators modifiers name typeParameters type =>
         anyNodesOpt anywhere decorators || anyNodesOpt anywhere modifiers
         || anywhere name || anyNodesOpt anywhere typeParameters
         || anywhere type
     | InterfaceDeclaration decorators modifiers name typeParameters
         heritageClauses members =>
         anyNodesOpt anywhere decorators || anyNodesOpt anywhere modifiers
         || anywhere name || anyNodesOpt anywhere typeParameters
         || anyNodesOpt anywhere heritageClauses
         || existsb anywhere members
     | SourceFile statements => existsb anywhere statements
     | TypeParameterDeclaration name constraint default =>
         anywhere name || anyNodeOpt anywhere constraint
         || anyNodeOpt anywhere default
     end.
End Anywhere.

(** The tree has a union type node, at its root or below. *)
Definition containsUnion : Node -> bool := anywhere isUnionTypeNode.

(** A union one of whose members is itself a union (not wrapped in
    parentheses).  The parser builds no such node: it flattens
    [A | B | C] and wraps a nested union in a parenthesized type. *)
Definition isUnionOfUnion (node : Node) : bool :=
  match node with
  | UnionTypeNode types => existsb isUnionTypeNode types
  | _ => false
  end.

(** No union of the tree has a union as a direct member. *)
Definition unionsAreFlat (node : Node) : bool :=
  negb (anywhere isUnionOfUnion node).

(** The tree with every union type node replaced by the intersection of
    its members, themselves rewritten: what the force-intersections
    configuration is described to make of a union. *)
Fixpoint asIntersections (node : Node) : Node :=
  match node with
  | UnionTypeNode types => IntersectionTypeNode (map asIntersections types)
  | _ => visitEachChild (fun child => Some (asIntersections child)) node
  end.

(** The same below the root only: the root keeps its kind and each of its
    children is rewritten. *)
Definition asIntersectionsBelow (node : Node) : Node :=
  visitEachChild (fun child => Some (asIntersections child)) node.

(** The tree with its parenthesized type nodes replaced by what they
    wrap.  Two trees with the same image differ in parentheses only. *)
Fixpoint withoutParentheses (node : Node) : Node :=
  match node with
  | ParenthesizedTypeNode type => withoutParentheses type
  | _ => visitEachChild (fun child => Some (withoutParentheses child)) node
  end.

(** An object shape: an interface declaration or a type literal. *)
Definition isShape (node : Node) : bool :=
  isInterfaceDeclaration node || isTypeLiteralNode node.

(** The tree has an object shape, at its root or below. *)
Definition containsShape : Node -> bool := anywhere isShape.

(** [node.members] of an object shape. *)
Definition membersOf (node : Node) : option (list Node) :=
  match node with
  | InterfaceDeclaration _ _ _ _ _ members => Some members
  | TypeLiteralNode members => Some members
  | _ => None
  end.

(** [node.statements] of a source file. *)
Definition statementsOf (node : Node) : list Node :=
  match node with
  | SourceFile statements => statements
  | _ => []
  end.

(** A string-keyed index signature whose value type is [unknown]:
    [[k: string]: unknown]. *)
Definition isStringKeyedUnknownIndexSignature (member : Node) : bool :=
  match member with
  | IndexSignatureDeclaration _ _ parameters type =>
      optHasKind SyntaxKind.StringKeyword
        (match at_index parameters 0 with
         | Some parameter => typeOf parameter
         | None => None
         end)
      && hasKind SyntaxKind.UnknownKeyword type
  | _ => false
  end.

(** A shape with a member for the pass to remove: it has two members or
    more, and one of them is a string-keyed index signature whose value
    type is [unknown]. *)
Definition hasRemovableMember (node : Node) : bool :=
  match membersOf node with
  | Some members =>
      Nat.leb 2 (List.length members)
      && existsb isStringKeyedUnknownIndexSignature members
  | None => false
  end.

(** A shape one of whose members is itself a shape.  The parser builds
    no such node: the members of a shape are type elements (property,
    index, method and call signatures). *)
Definition hasShapeMember (node : Node) : bool :=
  match membersOf node with
  | Some members => existsb isShape members
  | None => false
  end.

(** What an interface declaration has besides its members: decorators,
    modifiers, name, type parameters and heritage clauses. *)
Definition headerOf (node : Node) : list Node :=
  match node with
  | InterfaceDeclaration decorators modifiers name typeParameters
      heritageClauses _ =>
      nodesOpt decorators ++ nodesOpt modifiers ++ name
      :: nodesOpt typeParameters ++ nodesOpt heritageClauses
  | _ => []
  end.

(** An interface declaration with, somewhere in its header, a shape with
    a member for the pass to remove. *)
Definition hasRemovableInHeader (node : Node) : bool :=
  existsb (anywhere hasRemovableMember) (headerOf node).

(** What the root-renaming pass does to a top-level statement: a type
    alias gets the name [Tsconfig], an interface keeps the export keywords
    among its modifiers, any other statement is returned as it is. *)
Inductive Renamed : Node -> Node -> Prop :=
| Renamed_alias decorators modifiers name typeParameters type type' :
    Renamed
      (TypeAliasDeclaration decorators modifiers name typeParameters type)
      (TypeAliasDeclaration decorators modifiers (Identifier "Tsconfig")
         typeParameters type')
| Renamed_interface decorators modifiers name typeParameters heritageClauses
    members :
    Renamed
      (InterfaceDeclaration decorators modifiers name typeParameters
         heritageClauses members)
      (InterfaceDeclaration decorators
         (option_map (filter (hasKind SyntaxKind.ExportKeyword)) modifiers)
         name typeParameters heritageClauses members)
| Renamed_other statement :
    isTypeAliasDeclaration statement = false ->
    isInterfaceDeclaration statement = false ->
    Renamed statement statement.

(** The statement is the interface declaration with the given name. *)
Definition isInterfaceNamed (text : string) (statement : Node) : bool :=
  match statement with
  | InterfaceDeclaration _ _ name _ _ _ =>
      match textOf name with
      | Some text' => String.eqb text' text
      | None => false
      end
  | _ => false
  end.

(** What the property-injection pass does to a top-level statement. *)
Inductive SchemaAttached : Node -> Node -> Prop :=
| SchemaAttached_interface decorators modifiers name typeParameters
    heritageClauses members :
    isInterfaceNamed "CompilerOptionsDefinition"
      (InterfaceDeclaration decorators modifiers name typeParameters
         heritageClauses members) = true ->
    SchemaAttached
      (InterfaceDeclaration decorators modifiers name typeParameters
         heritageClauses members)
      (InterfaceDeclaration decorators modifiers name typeParameters
         heritageClauses
         (PropertySignature None (Identifier "$schema") true
            (Some (LiteralTypeNode
                     (StringLiteral
                        "https://json.schemastore.org/tsconfig.json")))
          :: members))
| SchemaAttached_other statement :
    isInterfaceNamed "CompilerOptionsDefinition" statement = false ->
    SchemaAttached statement statement.

(** ** Further notions: leaves, plans of effects, the callbacks as functions *)

(** A node without children: a token, an identifier, a literal, an empty
    statement. *)
Definition isLeaf (node : Node) : bool :=
  match node with
  | Token _ | Identifier _ | StringLiteral _ | NumericLiteral _
  | EmptyStatement => true
  | _ => false
  end.

Section Leaves.
Variable leaves : Node -> list Node.
Definition leavesOfNodesOpt (nodes : option (list Node)) : list Node :=
  match nodes with Some l => flat_map leaves l | None => [] end.
Definition leavesOfNodeOpt (node : option Node) : list Node :=
  match node with Some n => leaves n | None => [] end.
End Leaves.

(** The leaves of a tree, from left to right in the order of the visit. *)
Fixpoint leaves (node : Node) : list Node :=
  match node with
  | Token _ | Identifier _ | StringLiteral _ | NumericLiteral _
  | EmptyStatement => [node]
  | LiteralTypeNode literal => leaves literal
  | UnionTypeNode types | IntersectionTypeNode types => flat_map leaves types
  | ParenthesizedTypeNode type => leaves type
  | TypeLiteralNode members => flat_map leaves members
  | ArrayTypeNode elementType => leaves elementType
  | TypeReferenceNode typeName typeArguments =>
      leaves typeName ++ leavesOfNodesOpt leaves typeArguments
  | PropertySignature modifiers name _ type =>
      leavesOfNodesOpt leaves modifiers ++ leaves name
      ++ leavesOfNodeOpt leaves type
  | IndexSignatureDeclaration decorators modifiers parameters type =>
      leavesOfNodesOpt leaves decorators ++ leavesOfNodesOpt leaves modifiers
      ++ flat_map leaves parameters ++ leaves type
  | ParameterDeclaration decorators modifiers _ name _ type init =>
      leavesOfNodesOpt leaves decorators ++ leavesOfNodesOpt leaves modifiers
      ++ leaves name ++ leavesOfNodeOpt leaves type
      ++ leavesOfNodeOpt leaves init
  | TypeAliasDeclaration decorators modifiers name typeParameters type =>
      leavesOfNodesOpt leaves decorators ++ leavesOfNodesOpt leaves modifiers
      ++ leaves name ++ leavesOfNodesOpt leaves typeParameters
      ++ leaves type
  | InterfaceDeclaration decorators modifiers name typeParameters
      heritageClauses members =>
      leavesOfNodesOpt leaves decorators ++ leavesOfNodesOpt leaves modifiers
      ++ leaves name ++ leavesOfNodesOpt leaves typeParameters
      ++ leavesOfNodesOpt leaves heritageClauses
      ++ flat_map leaves members
  | SourceFile statements => flat_map leaves statements
  | TypeParameterDeclaration name constraint default =>
      leaves name ++ leavesOfNodeOpt leaves constraint
      ++ leavesOfNodeOpt leaves default
  end.

(** The leaves that are not the keyword [string]. *)
Definition leavesButString (node : Node) : list Node :=
  filter (fun leaf => negb (hasKind SyntaxKind.StringKeyword leaf))
    (leaves node).

(** Whether [main] gets past an effect: a call that is not awaited
    always returns to it, any other effect has to succeed. *)
Definition getsPast (succeeds : Effect -> bool) (e : Effect) : bool :=
  match e with
  | StandardVersionStarted _ => true
  | _ => succeeds e
  end.

(** A run of standard-version, awaited or not. *)
Definition isStandardVersion (e : Effect) : bool :=
  match e with
  | StandardVersion _ | StandardVersionStarted _ => true
  | _ => false
  end.

(** A git or npm command, or a run or a start of standard-version. *)
Definition isCommand (e : Effect) : bool :=
  match e with
  | WriteFile _ _ => false
  | _ => true
  end.

(** The longest prefix of a list whose elements all pass a test. *)
Fixpoint takeWhile {A : Type} (test : A -> bool) (l : list A) : list A :=
  match l with
  | [] => []
  | x :: rest => if test x then x :: takeWhile test rest else []
  end.

(** The effects that [main] of action.ts sets out to perform, in order,
    once the checksum has been found new. *)
Definition releasePlan_action (inDevelopment : bool)
  (checksum transformedSourceFormatted : string) : list Effect :=
  if inDevelopment then
    [WriteFile "the_type.d.ts" (Text transformedSourceFormatted)]
  else
    [WriteFile "checksum.json" (ChecksumRecord checksum);
     WriteFile "the_type.d.ts" (Text transformedSourceFormatted);
     ExecSync GitAddAll;
     ExecSync GitCommitFeat;
     StandardVersionStarted false;
     ExecSync GitPushFollowTagsAndNpmPublish].

(** The same for [main] of index.ts. *)
Definition releasePlan_index (devMode : bool)
  (checksum transformedSourceFormatted : string) : list Effect :=
  if devMode then
    [WriteFile "the_type.d.ts" (Text transformedSourceFormatted)]
  else
    [WriteFile "checksum.json" (ChecksumRecord checksum);
     WriteFile "the_type.d.ts" (Text transformedSourceFormatted);
     ExecSync GitConfigUserEmail;
     ExecSync GitConfigUserName;
     ExecSync GitAddAll;
     ExecSync GitCommitChore;
     StandardVersion true;
     ExecSync GitPushFollowTags].

(** What the callback of [removeStringMergedWithStringLiterals] answers,
    as a function. *)
Definition mergedChild (child : Node) : Node :=
  if intersectsWithStringLiteral child then
    removeStringMergedWithStringLiterals (removeWideStrings child)
  else
    removeStringMergedWithStringLiterals child.

(** What the callback of [removeStandaloneUnknownRecsInUnions] makes of
    a kept member of a union: its children are visited by the pass. *)
Definition keptMember (type : Node) : Node :=
  visitEachChild
    (fun child => Some (removeStandaloneUnknownRecsInUnions child)) type.

(** What the callback of [removeUnknownIndexSignatures] answers, as a
    function of the pass itself: with [keepHeader] as in index.ts,
    without as in action.ts. *)
Definition shapeChild (keepHeader : bool) (pass : Node -> Node) (child : Node)
  : Node :=
  match child with
  | InterfaceDeclaration decorators modifiers name typeParameters
      heritageClauses members =>
      if keepHeader then
        InterfaceDeclaration decorators modifiers name typeParameters
          heritageClauses (keptMembers pass members)
      else
        InterfaceDeclaration None None name None None
          (keptMembers pass members)
  | TypeLiteralNode members => TypeLiteralNode (keptMembers pass members)
  | _ => pass child
  end.

(** A string literal type: a literal type node around a string literal. *)
Definition isStringLiteralType (node : Node) : bool :=
  match node with
  | LiteralTypeNode (StringLiteral _) => true
  | _ => false
  end.

(** A member that [removeStandaloneUnknownRecsInUnions] would remove
    from a union. *)
Definition isStandaloneRec (type : Node) : bool := negb (keepInUnion type).

(** What the callbacks of the root-renaming passes and of the property
    injection answer on a statement, as functions; [rewrite] is what the
    pass does to the definition of an alias (nothing in action.ts,
    [unionsToIntersections] in index.ts). *)
Definition renameStatement (rewrite : Node -> Node) (statement : Node) : Node :=
  match statement with
  | TypeAliasDeclaration decorators modifiers _ typeParameters type =>
      TypeAliasDeclaration decorators modifiers (Identifier "Tsconfig")
        typeParameters (rewrite type)
  | InterfaceDeclaration decorators modifiers name typeParameters
      heritageClauses members =>
      InterfaceDeclaration decorators
        (option_map (filter (hasKind SyntaxKind.ExportKeyword)) modifiers)
        name typeParameters heritageClauses members
  | _ => statement
  end.

Definition attachStatement (statement : Node) : Node :=
  match statement with
  | InterfaceDeclaration decorators modifiers name typeParameters
      heritageClauses members =>
      if isInterfaceNamed "CompilerOptionsDefinition" statement then
        InterfaceDeclaration decorators modifiers name typeParameters
          heritageClauses (IndexTs.schemaProp :: members)
      else statement
  | _ => statement
  end.

(** What the four passes of action.ts, in order, make of a statement. *)
Definition statementOfAction (statement : Node) : Node :=
  shapeChild false ActionTs.removeUnknownIndexSignatures
    (mergedChild
       (removeStandaloneUnknownRecsInUnions
          (renameStatement (fun type => type) statement))).

(** What the five passes of index.ts, in order, make of a statement. *)
Definition statementOfIndex (statement : Node) : Node :=
  shapeChild true IndexTs.removeUnknownIndexSignatures
    (mergedChild
       (removeStandaloneUnknownRecsInUnions
          (renameStatement IndexTs.unionsToIntersections
             (attachStatement statement)))).

(** A statement of the input and the statement that a pipeline returns
    for it: an alias comes out as an alias named [Tsconfig], an
    interface as an interface. *)
Definition Published (statement statement' : Node) : Prop :=
  match statement with
  | TypeAliasDeclaration _ _ _ _ _ =>
      exists decorators modifiers typeParameters type,
        statement' = TypeAliasDeclaration decorators modifiers
                       (Identifier "Tsconfig") typeParameters type
  | InterfaceDeclaration _ _ _ _ _ _ => isInterfaceDeclaration statement' = true
  | _ => True
  end.

(** The modifiers of an interface of the input and the interface that
    the pipeline of index.ts returns for it: the export keywords of the
    former are the modifiers of the latter. *)
Definition ExportKept (statement statement' : Node) : Prop :=
  match statement with
  | InterfaceDeclaration _ modifiers _ _ _ _ =>
      exists decorators name typeParameters heritageClauses members,
        statement' = InterfaceDeclaration decorators
                       (option_map
                          (filter (hasKind SyntaxKind.ExportKeyword))
                          modifiers)
                       name typeParameters heritageClauses members
  | _ => True
  end.

(** An interface of the input and the interface that the pipeline of
    action.ts returns for it: name and members only. *)
Definition HeaderDropped (statement statement' : Node) : Prop :=
  match statement with
  | InterfaceDeclaration _ _ _ _ _ _ =>
      exists name members,
        statement' = InterfaceDeclaration None None name None None members
  | _ => True
  end.

(** The interface [CompilerOptionsDefinition] of the input and the
    interface that the pipeline of index.ts returns for it: [$schema] is
    its first member. *)
Definition SchemaFirst (statement statement' : Node) : Prop :=
  isInterfaceNamed "CompilerOptionsDefinition" statement = true ->
  isInterfaceNamed "CompilerOptionsDefinition" statement' = true
  /\ exists others,
       membersOf statement' = Some (IndexTs.schemaProp :: others).

(** A type alias of the input whose definition is not itself a union
    and has no union with a union as a direct member, and the alias that
    the pipeline of index.ts returns for it: named [Tsconfig], with a
    definition that has no union type node at all. *)
Definition NoUnionLeft (statement statement' : Node) : Prop :=
  match statement with
  | TypeAliasDeclaration _ _ _ _ type =>
      unionsAreFlat type = true ->
      isUnionTypeNode type = false ->
      exists decorators modifiers typeParameters type',
        statement' = TypeAliasDeclaration decorators modifiers
                       (Identifier "Tsconfig") typeParameters type'
        /\ containsUnion type' = false
  | _ => True
  end.

(** * Properties *)

(** ** The tree and the visit *)

Lemma SyntaxKind_eqb_eq (a b : SyntaxKind.t) :
  SyntaxKind.eqb a b = true <-> a = b.
Proof. destruct a, b; simpl; split; intro H; congruence. Qed.

Lemma filterThenMap_eq (A B : Type) (keep : A -> bool) (f : A -> B)
  (array : list A) :
  filterThenMap keep f array = map f (filter keep array).
Proof.
  induction array as [|x rest IH]; simpl; [reflexivity|].
  destruct (keep x); simpl; now rewrite IH.
Qed.

(** A visitor that always answers a node maps over an array ... *)
Lemma visitNodes_total (f : Node -> Node) (nodes : list Node) :
  visitNodes (fun child => Some (f child)) nodes = map f nodes.
Proof. induction nodes as [|n rest IH]; simpl; congruence. Qed.

(** ... and replaces a required child by its answer. *)
Lemma visitNode_total (f : Node -> Node) (node : Node) :
  visitNode (fun child => Some (f child)) node = f node.
Proof. reflexivity. Qed.

Lemma visitNodes_ext (v1 v2 : Visitor) (nodes : list Node) :
  (forall c, In c nodes -> v1 c = v2 c) ->
  visitNodes v1 nodes = visitNodes v2 nodes.
Proof.
  induction nodes as [|n rest IH]; simpl; intro H; [reflexivity|].
  rewrite (H n) by now left.
  rewrite IH by (intros c Hc; apply H; now right).
  reflexivity.
Qed.

Lemma visitNodesOpt_ext (v1 v2 : Visitor) (nodes : option (list Node)) :
  (forall c, In c (nodesOpt nodes) -> v1 c = v2 c) ->
  visitNodesOpt v1 nodes = visitNodesOpt v2 nodes.
Proof.
  destruct nodes as [l|]; simpl; intro H; [|reflexivity].
  now rewrite (visitNodes_ext v1 v2 l H).
Qed.

Lemma visitNodeOpt_ext (v1 v2 : Visitor) (node : option Node) :
  (forall c, In c (nodeOpt node) -> v1 c = v2 c) ->
  visitNodeOpt v1 node = visitNodeOpt v2 node.
Proof.
  destruct node as [n|]; simpl; intro H; [|reflexivity].
  apply H; now left.
Qed.

Lemma visitNode_ext (v1 v2 : Visitor) (node : Node) :
  v1 node = v2 node -> visitNode v1 node = visitNode v2 node.
Proof. unfold visitNode; now intros ->. Qed.

(** The result of [visitEachChild] depends on the visitor only through
    its answers on the children of the node. *)
Lemma visitEachChild_ext (v1 v2 : Visitor) (node : Node) :
  (forall c, In c (children node) -> v1 c = v2 c) ->
  visitEachChild v1 node = visitEachChild v2 node.
Proof.
  intro H.
  destruct node; simpl in *; try reflexivity;
    repeat match goal with
      | |- context [visitNodes v1 ?l] =>
          rewrite (visitNodes_ext v1 v2 l)
            by (intros; apply H; repeat (rewrite ?in_app_iff; simpl); tauto)
      | |- context [visitNodesOpt v1 ?l] =>
          rewrite (visitNodesOpt_ext v1 v2 l)
            by (intros; apply H; repeat (rewrite ?in_app_iff; simpl); tauto)
      | |- context [visitNodeOpt v1 ?l] =>
          rewrite (visitNodeOpt_ext v1 v2 l)
            by (intros; apply H; repeat (rewrite ?in_app_iff; simpl); tauto)
      | |- context [visitNode v1 ?l] =>
          rewrite (visitNode_ext v1 v2 l)
            by (apply H; repeat (rewrite ?in_app_iff; simpl); tauto)
      end; reflexivity.
Qed.

Lemma sizeNodes_In (c : Node) (nodes : list Node) :
  In c nodes -> size c <= sizeNodes size nodes.
Proof.
  unfold sizeNodes.
  induction nodes as [|n rest IH]; simpl; [tauto|].
  intros [->|Hc]; [lia|]. specialize (IH Hc). lia.
Qed.

Lemma sizeNodesOpt_In (c : Node) (nodes : option (list Node)) :
  In c (nodesOpt nodes) -> size c <= sizeNodesOpt size nodes.
Proof. destruct nodes as [l|]; simpl; [apply sizeNodes_In | tauto]. Qed.

Lemma sizeNodeOpt_In (c : Node) (node : option Node) :
  In c (nodeOpt node) -> size c <= sizeNodeOpt size node.
Proof. destruct node as [n|]; simpl; [intros [->|[]]; lia | tauto]. Qed.

(** A child is smaller than its parent. *)
Lemma size_children (c node : Node) :
  In c (children node) -> size c < size node.
Proof.
  destruct node; simpl; try tauto;
    rewrite ?in_app_iff; simpl; rewrite ?in_app_iff; simpl;
    intro H;
    repeat match goal with
      | H : _ \/ _ |- _ => destruct H
      | H : False |- _ => destruct H
      | H : In c (nodesOpt _) |- _ => apply sizeNodesOpt_In in H
      | H : In c (nodeOpt _) |- _ => apply sizeNodeOpt_In in H
      | H : In c _ |- _ => apply sizeNodes_In in H
      end; subst; try lia.
Qed.

(** Induction on a tree: a property that holds of a node whenever it
    holds of its children holds of every node. *)
Lemma Node_children_ind (P : Node -> Prop) :
  (forall node, (forall c, In c (children node) -> P c) -> P node) ->
  forall node, P node.
Proof.
  intros step node.
  remember (size node) as k eqn:Hk.
  revert node Hk.
  induction k as [k IH] using lt_wf_ind.
  intros node ->. apply step. intros c Hc.
  apply (IH (size c)); [now apply size_children | reflexivity].
Qed.

(** ** [removeWideStrings] and [removeStringMergedWithStringLiterals] *)

Lemma removeWideStrings_union (types : list Node) :
  removeWideStrings (UnionTypeNode types)
  = UnionTypeNode (visitNodes visitWideStrings types).
Proof. reflexivity. Qed.

Lemma removeWideStrings_intersection (types : list Node) :
  removeWideStrings (IntersectionTypeNode types)
  = IntersectionTypeNode (visitNodes visitWideStrings types).
Proof. reflexivity. Qed.

Lemma removeWideStrings_parenthesized (type : Node) :
  removeWideStrings (ParenthesizedTypeNode type) = removeWideStrings type.
Proof. reflexivity. Qed.

Lemma size_pos (node : Node) : 0 < size node.
Proof. destruct node; simpl; lia. Qed.

Lemma sizeNodes_visitNodes (v : Visitor) (nodes : list Node) :
  (forall c c', In c nodes -> v c = Some c' -> size c' <= size c) ->
  sizeNodes size (visitNodes v nodes) <= sizeNodes size nodes.
Proof.
  unfold sizeNodes.
  induction nodes as [|n rest IH]; simpl; intro H; [lia|].
  assert (IH' := IH (fun c c' Hc => H c c' (or_intror Hc))).
  destruct (v n) as [n'|] eqn:E; simpl.
  - pose proof (H n n' (or_introl eq_refl) E). lia.
  - lia.
Qed.

(** [removeWideStrings] never grows a tree. *)
Lemma size_removeWideStrings (node : Node) :
  size (removeWideStrings node) <= size node.
Proof.
  induction node as [node IH] using Node_children_ind.
  assert (Hlist : forall types, (forall c, In c types ->
             size (removeWideStrings c) <= size c) ->
           sizeNodes size (visitNodes visitWideStrings types)
           <= sizeNodes size types).
  { intros types H. apply sizeNodes_visitNodes.
    intros c c' Hc. unfold visitWideStrings.
    destruct (hasKind _ c); [discriminate|].
    intros [= <-]. now apply H. }
  destruct node; try (simpl; lia).
  - rewrite removeWideStrings_union. simpl.
    apply le_n_S, Hlist. intros c Hc. apply IH. exact Hc.
  - rewrite removeWideStrings_intersection. simpl.
    apply le_n_S, Hlist. intros c Hc. apply IH. exact Hc.
  - rewrite removeWideStrings_parenthesized. simpl.
    specialize (IH node (or_introl eq_refl)). lia.
Qed.

(** Once the bound covers the size of the node, the result no longer
    depends on it. *)
Lemma removeStringMergedWithStringLiterals_bounded_stable (m : nat) :
  forall node calls1 calls2,
    size node <= m -> size node <= calls1 -> size node <= calls2 ->
    removeStringMergedWithStringLiterals_bounded calls1 node
    = removeStringMergedWithStringLiterals_bounded calls2 node.
Proof.
  induction m as [|m IH]; intros node calls1 calls2 Hm H1 H2.
  - pose proof (size_pos node). lia.
  - destruct calls1 as [|k1]; [pose proof (size_pos node); lia|].
    destruct calls2 as [|k2]; [pose proof (size_pos node); lia|].
    simpl. apply visitEachChild_ext. intros c Hc.
    apply size_children in Hc.
    pose proof (size_removeWideStrings c).
    destruct (intersectsWithStringLiteral c); f_equal; apply IH; lia.
Qed.

(** The equation of the source: the pass visits the children of the node
    with [visitStringMerged]. *)
Lemma removeStringMergedWithStringLiterals_eq (node : Node) :
  removeStringMergedWithStringLiterals node
  = visitEachChild visitStringMerged node.
Proof.
  unfold removeStringMergedWithStringLiterals.
  destruct (size node) as [|k] eqn:E; [pose proof (size_pos node); lia|].
  simpl. apply visitEachChild_ext. intros c Hc.
  apply size_children in Hc.
  pose proof (size_removeWideStrings c).
  unfold visitStringMerged, removeStringMergedWithStringLiterals.
  destruct (intersectsWithStringLiteral c); f_equal;
    apply (removeStringMergedWithStringLiterals_bounded_stable k); lia.
Qed.

(** ** The root-renaming pass and the property injection *)

Lemma Forall2_map_r (R : Node -> Node -> Prop) (f : Node -> Node)
  (nodes : list Node) :
  (forall n, R n (f n)) -> Forall2 R nodes (map f nodes).
Proof. intro H. induction nodes; simpl; constructor; auto. Qed.

Ltac statement_cases s :=
  destruct s; simpl;
  try (now constructor);
  try (apply Renamed_other; reflexivity).

(** C5. The root-renaming pass of either variant maps a source file to a
    source file whose statements are, one by one, the original ones
    renamed: a type alias carries the identifier [Tsconfig], an interface
    keeps exactly the export keywords of its modifiers and its name, type
    parameters, heritage clauses and members, and any other statement is
    returned unchanged. *)
Theorem root_renaming_pass (statements : list Node) :
  (exists renamed,
      ActionTs.renameTsconfigTypeAndRemoveOtherExports (SourceFile statements)
      = SourceFile renamed
      /\ Forall2 Renamed statements renamed)
  /\ (exists renamed,
        IndexTs.renameTsconfigTypeForceIntersectionsRemoveOtherExports
          (SourceFile statements)
        = SourceFile renamed
        /\ Forall2 Renamed statements renamed).
Proof.
  split.
  - eexists. split.
    + unfold ActionTs.renameTsconfigTypeAndRemoveOtherExports. simpl.
      set (f := fun statement : Node =>
        match statement with
        | TypeAliasDeclaration d m _ tp ty =>
            TypeAliasDeclaration d m (Identifier "Tsconfig") tp ty
        | InterfaceDeclaration d m n tp h ms =>
            InterfaceDeclaration d
              (option_map (filter (hasKind SyntaxKind.ExportKeyword)) m)
              n tp h ms
        | _ => statement
        end).
      rewrite (visitNodes_ext _ (fun c => Some (f c)))
        by (intros c _; destruct c; reflexivity).
      rewrite visitNodes_total. reflexivity.
    + apply Forall2_map_r. intro s. statement_cases s.
  - eexists. split.
    + unfold IndexTs.renameTsconfigTypeForceIntersectionsRemoveOtherExports.
      simpl.
      set (f := fun statement : Node =>
        match statement with
        | TypeAliasDeclaration d m _ tp ty =>
            TypeAliasDeclaration d m (Identifier "Tsconfig") tp
              (IndexTs.unionsToIntersections ty)
        | InterfaceDeclaration d m n tp h ms =>
            InterfaceDeclaration d
              (option_map (filter (hasKind SyntaxKind.ExportKeyword)) m)
              n tp h ms
        | _ => statement
        end).
      rewrite (visitNodes_ext _ (fun c => Some (f c)))
        by (intros c _; destruct c; reflexivity).
      rewrite visitNodes_total. reflexivity.
    + apply Forall2_map_r. intro s. statement_cases s.
Qed.

(** C7. [attachSchemaPropToTopLevel] maps a source file to a source file
    whose statements are the original ones, except that an interface
    named [CompilerOptionsDefinition] gets one new first member, the
    optional property [$schema] of the string-literal type
    ["https://json.schemastore.org/tsconfig.json"], followed by all its
    original members. *)
Theorem attachSchemaProp_pass (statements : list Node) :
  exists attached,
    IndexTs.attachSchemaPropToTopLevel (SourceFile statements)
    = SourceFile attached
    /\ Forall2 SchemaAttached statements attached.
Proof.
  eexists. split.
  - unfold IndexTs.attachSchemaPropToTopLevel. simpl.
    set (f := fun statement : Node =>
      match statement with
      | InterfaceDeclaration d m n tp h ms =>
          if isInterfaceNamed "CompilerOptionsDefinition" statement
          then InterfaceDeclaration d m n tp h (IndexTs.schemaProp :: ms)
          else statement
      | _ => statement
      end).
    rewrite (visitNodes_ext _ (fun c => Some (f c))).
    + rewrite visitNodes_total. reflexivity.
    + intros c _. destruct c; try reflexivity.
      unfold f, isInterfaceNamed.
      destruct (textOf c) as [text|]; [|reflexivity].
      destruct (String.eqb text _); reflexivity.
  - apply Forall2_map_r. intro s. cbv beta.
    destruct s; try (apply SchemaAttached_other; reflexivity).
    match goal with
    | |- context [if ?b then _ else _] => destruct b eqn:E
    end.
    + now apply SchemaAttached_interface.
    + now apply SchemaAttached_other.
Qed.

(** ** The transformer *)

(** One more pass at the end of the list: the reducer runs it on the
    result so far and checks what it returns. *)
Lemma transformerOver_snoc (factories : list (Node -> Node))
  (transform : Node -> Node) (sourceFile : Node) :
  transformerOver (factories ++ [transform]) sourceFile
  = match transformerOver factories sourceFile with
    | Returned result =>
        if negb (isSourceFile (transform result)) then Thrown ""
        else Returned (transform result)
    | Thrown message => Thrown message
    end.
Proof. unfold transformerOver. rewrite fold_left_app. reflexivity. Qed.

Lemma transformerOver_returns_sourceFile (factories : list (Node -> Node))
  (sourceFile result : Node) :
  isSourceFile sourceFile = true ->
  transformerOver factories sourceFile = Returned result ->
  isSourceFile result = true.
Proof.
  intro Hsf. revert result.
  induction factories as [|transform factories IH] using rev_ind;
    intros result H.
  - injection H as <-. exact Hsf.
  - rewrite transformerOver_snoc in H.
    destruct (transformerOver factories sourceFile) as [r|m]; [|discriminate].
    destruct (isSourceFile (transform r)) eqn:E; simpl in H; [|discriminate].
    injection H as <-. exact E.
Qed.

Lemma transformerOver_thrown_iff (factories : list (Node -> Node))
  (sourceFile : Node) :
  (exists message, transformerOver factories sourceFile = Thrown message)
  <-> (exists before transform after result,
          factories = before ++ transform :: after
          /\ transformerOver before sourceFile = Returned result
          /\ isSourceFile (transform result) = false).
Proof.
  induction factories as [|last factories IH] using rev_ind.
  - split.
    + intros [message H]. discriminate.
    + intros (before & transform & after & result & H & _).
      destruct before; discriminate.
  - rewrite transformerOver_snoc. split.
    + intros [message H].
      destruct (transformerOver factories sourceFile) as [r|m] eqn:E.
      * exists factories, last, [], r.
        destruct (isSourceFile (last r)); [discriminate|]. auto.
      * destruct IH as [IH _].
        destruct (IH (ex_intro _ m eq_refl))
          as (before & transform & after & result & -> & Hb & Ht).
        exists before, transform, (after ++ [last]), result.
        rewrite <- app_assoc. auto.
    + intros (before & transform & after & result & Heq & Hb & Ht).
      destruct after as [|a after'] using rev_ind.
      * apply app_inj_tail in Heq as [-> ->].
        rewrite Hb, Ht. simpl. eauto.
      * clear IHafter'.
        rewrite app_comm_cons, app_assoc in Heq.
        apply app_inj_tail in Heq as [-> ->].
        destruct IH as [_ IH].
        destruct IH as [m Hm]; [now exists before, transform, after', result|].
        rewrite Hm. eauto.
Qed.

Lemma applyAll_snoc (factories : list (Node -> Node))
  (transform : Node -> Node) (sourceFile : Node) :
  applyAll (factories ++ [transform]) sourceFile
  = transform (applyAll factories sourceFile).
Proof. unfold applyAll. now rewrite fold_left_app. Qed.

(** What the transformer returns is what the passes, each run on the
    result of the one before, make of the source file. *)
Lemma transformerOver_returns_applyAll (factories : list (Node -> Node))
  (sourceFile result : Node) :
  transformerOver factories sourceFile = Returned result ->
  result = applyAll factories sourceFile.
Proof.
  revert result.
  induction factories as [|transform factories IH] using rev_ind;
    intros result H.
  - now injection H as <-.
  - rewrite transformerOver_snoc in H. rewrite applyAll_snoc.
    destruct (transformerOver factories sourceFile) as [r|m]; [|discriminate].
    rewrite <- (IH r eq_refl).
    destruct (isSourceFile (transform r)); simpl in H; [|discriminate].
    now injection H as <-.
Qed.

Lemma transformerOver_thrown_message (factories : list (Node -> Node))
  (sourceFile : Node) (message : string) :
  transformerOver factories sourceFile = Thrown message -> message = "".
Proof.
  induction factories as [|transform factories IH] using rev_ind; intro H.
  - discriminate.
  - rewrite transformerOver_snoc in H.
    destruct (transformerOver factories sourceFile) as [r|m].
    + destruct (isSourceFile (transform r)); simpl in H; [discriminate|].
      now injection H as <-.
    + injection H as <-. now apply IH.
Qed.

Lemma transformerOver_breaks_iff (factories : list (Node -> Node))
  (sourceFile : Node) :
  (exists message, transformerOver factories sourceFile = Thrown message)
  <-> (exists before transform after,
          factories = before ++ transform :: after
          /\ isSourceFile (transform (applyAll before sourceFile)) = false).
Proof.
  rewrite transformerOver_thrown_iff. split.
  - intros (before & transform & after & result & Heq & Hb & Ht).
    exists before, transform, after. split; [exact Heq|].
    now rewrite <- (transformerOver_returns_applyAll before sourceFile result Hb).
  - intros (before & transform & after & Heq & Ht).
    destruct (transformerOver before sourceFile) as [r|m] eqn:E.
    + exists before, transform, after, r. split; [exact Heq|].
      split; [exact E|].
      now rewrite (transformerOver_returns_applyAll before sourceFile r E).
    + destruct (proj1 (transformerOver_thrown_iff before sourceFile)
                  (ex_intro _ m E))
        as (b & t & a & r & -> & Hb & Hr).
      exists b, t, (a ++ transform :: after), r.
      rewrite Heq, <- app_assoc. auto.
Qed.

(** C8. On a source file, the transformer throws (an error without a
    message) exactly when some pass of the list, run on what the passes
    before it make of the source file, each on the result of the one
    before, returns a node that is not a source file, whatever the
    passes after it would do.  When no pass does, the transformer
    returns what all the passes in order make of the source file, and
    that is a source file. *)
Theorem transformer_throws_iff_some_pass_breaks
  (factories : list (Node -> Node)) (sourceFile : Node)
  (HsourceFile : isSourceFile sourceFile = true) :
  (transformerOver factories sourceFile = Thrown ""
   <-> exists before transform after,
         factories = before ++ transform :: after
         /\ isSourceFile (transform (applyAll before sourceFile)) = false)
  /\ (forall message,
        transformerOver factories sourceFile = Thrown message ->
        message = "")
  /\ ((forall before transform after,
          factories = before ++ transform :: after ->
          isSourceFile (transform (applyAll before sourceFile)) = true)
      <-> transformerOver factories sourceFile
          = Returned (applyAll factories sourceFile))
  /\ (forall result,
        transformerOver factories sourceFile = Returned result ->
        result = applyAll factories sourceFile
        /\ isSourceFile result = true).
Proof.
  assert (Hthrown : transformerOver factories sourceFile = Thrown ""
                    <-> exists message,
                          transformerOver factories sourceFile
                          = Thrown message).
  { split; [eauto|]. intros [message H].
    pose proof (transformerOver_thrown_message _ _ _ H) as Hm.
    now subst message. }
  split; [now rewrite Hthrown, transformerOver_breaks_iff|].
  split; [apply transformerOver_thrown_message|].
  split.
  - split.
    + intro Hall.
      destruct (transformerOver factories sourceFile) as [r|m] eqn:E.
      * now rewrite (transformerOver_returns_applyAll _ _ _ E).
      * destruct (proj1 (transformerOver_breaks_iff factories sourceFile)
                    (ex_intro _ m E))
          as (before & transform & after & Heq & Ht).
        rewrite (Hall before transform after Heq) in Ht. discriminate.
    + intros Hret before transform after Heq.
      destruct (isSourceFile (transform (applyAll before sourceFile))) eqn:E;
        [reflexivity|].
      destruct (proj2 (transformerOver_breaks_iff factories sourceFile))
        as [m Hm]; [now exists before, transform, after|].
      rewrite Hret in Hm. discriminate.
  - intros result H. split.
    + now apply transformerOver_returns_applyAll.
    + now apply (transformerOver_returns_sourceFile factories sourceFile).
Qed.

(** The check runs after every pass and each pass runs on the result of
    the one before: a first pass that breaks the invariant makes the
    transformer throw although the last pass would return a source
    file, and two passes that keep it are composed. *)
Lemma transformer_throws_iff_some_pass_breaks_witness :
  transformerOver
    [ (fun _ => EmptyStatement); (fun _ => SourceFile []) ]
    (SourceFile [])
  = Thrown ""
  /\ transformerOver
       [ (fun node => SourceFile (EmptyStatement :: statementsOf node));
         (fun node => SourceFile (statementsOf node ++ statementsOf node)) ]
       (SourceFile [])
     = Returned (SourceFile [EmptyStatement; EmptyStatement]).
Proof.
  split.
  - apply (proj2 (proj1 (transformer_throws_iff_some_pass_breaks
                           [ (fun _ => EmptyStatement);
                             (fun _ => SourceFile []) ]
                           (SourceFile []) eq_refl))).
    exists [], (fun _ => EmptyStatement), [ (fun _ : Node => SourceFile []) ].
    split; reflexivity.
  - apply (proj1 (proj1 (proj2 (proj2
             (transformer_throws_iff_some_pass_breaks
                [ (fun node => SourceFile (EmptyStatement :: statementsOf node));
                  (fun node =>
                     SourceFile (statementsOf node ++ statementsOf node)) ]
                (SourceFile []) eq_refl))))).
    intros before transform after Heq.
    destruct before as [|t1 [|t2 before]]; simpl in Heq.
    + injection Heq as <- _. reflexivity.
    + injection Heq as _ <- _. reflexivity.
    + injection Heq as _ _ Heq. destruct before; discriminate.
Defined.

(** ** The release tail of [main] *)

(** C9. In production mode, when the checksum of the formatted source
    equals the stored one, either variant of [main] throws with no effect
    performed: no file written, no command run.  When the checksums
    differ, the first effect is the write of the new checksum; if it
    fails nothing is done; if it succeeds the write of the output file
    comes next, and only after both writes the release commands, none
    of which is a write. *)
Theorem release_aborts_before_any_write
  (md5 : string -> string) (succeeds : Effect -> bool)
  (previousChecksum formatted : string) :
  forall main,
    main = main_action md5 succeeds \/ main = main_index md5 succeeds ->
    let writeChecksum :=
      WriteFile "checksum.json" (ChecksumRecord (md5 formatted)) in
    let writeOutput := WriteFile "the_type.d.ts" (Text formatted) in
    if String.eqb (md5 formatted) previousChecksum then
      main false previousChecksum formatted
      = ([], Thrown "Already released this version.")
    else if negb (succeeds writeChecksum) then
      exists message,
        main false previousChecksum formatted = ([], Thrown message)
    else if negb (succeeds writeOutput) then
      exists message,
        main false previousChecksum formatted
        = ([writeChecksum], Thrown message)
    else
      exists commands,
        fst (main false previousChecksum formatted)
        = writeChecksum :: writeOutput :: commands
        /\ forallb isCommand commands = true.
Proof.
  intros main Hmain writeChecksum writeOutput.
  subst writeChecksum writeOutput.
  destruct (String.eqb (md5 formatted) previousChecksum) eqn:E;
    [| destruct (succeeds (WriteFile "checksum.json" _)) eqn:Ec;
       [destruct (succeeds (WriteFile "the_type.d.ts" _)) eqn:Eo |]];
    simpl; destruct Hmain as [-> | ->];
    unfold main_action, main_index, when, perform, start, bind, throw, ret;
    simpl; rewrite E; simpl; rewrite ?Ec; simpl; rewrite ?Eo; simpl;
    try reflexivity; try (eexists; reflexivity);
    repeat match goal with
      | |- context [succeeds ?e] => destruct (succeeds e); simpl
      end;
    eexists; split; reflexivity.
Qed.

(** With the stored checksum equal to the digest, [main] of index.ts
    throws and performs nothing; with a new digest and every effect
    succeeding, [main] of action.ts writes the checksum, then the
    output, then runs its commands. *)
Lemma release_aborts_before_any_write_witness :
  main_index (fun s => s) (fun _ => true) false "d41d8" "d41d8"
  = ([], Thrown "Already released this version.")
  /\ exists commands,
       fst (main_action (fun s => s) (fun _ => true) false "d41d8" "98f13")
       = WriteFile "checksum.json" (ChecksumRecord "98f13")
         :: WriteFile "the_type.d.ts" (Text "98f13") :: commands
       /\ forallb isCommand commands = true.
Proof.
  split.
  - exact (release_aborts_before_any_write (fun s => s) (fun _ => true)
             "d41d8" "d41d8" _ (or_intror eq_refl)).
  - exact (release_aborts_before_any_write (fun s => s) (fun _ => true)
             "d41d8" "98f13" _ (or_introl eq_refl)).
Defined.

(** ** Trees below a node *)

Lemma existsb_false_iff (p : Node -> bool) (nodes : list Node) :
  existsb p nodes = false <-> forall c, In c nodes -> p c = false.
Proof.
  induction nodes as [|n rest IH]; simpl.
  - split; [intros _ c [] | reflexivity].
  - rewrite orb_false_iff, IH. split.
    + intros [Hn Hrest] c [<-|Hc]; auto.
    + intro H. split; [apply H; now left | intros c Hc; apply H; now right].
Qed.

(** [anywhere p] looks at the node and then at its children. *)
Lemma anywhere_children (p : Node -> bool) (node : Node) :
  anywhere p node = p node || existsb (anywhere p) (children node).
Proof.
  destruct node; simpl; try reflexivity;
    repeat match goal with
      | o : option (list Node) |- _ => destruct o
      | o : option Node |- _ => destruct o
      end; simpl;
    repeat (rewrite ?existsb_app; simpl);
    rewrite ?orb_false_r, ?orb_assoc; reflexivity.
Qed.

Lemma anywhere_false_children (p : Node -> bool) (node c : Node) :
  anywhere p node = false -> In c (children node) -> anywhere p c = false.
Proof.
  rewrite anywhere_children, orb_false_iff, existsb_false_iff.
  intros [_ H]. apply H.
Qed.

Lemma anywhere_false_here (p : Node -> bool) (node : Node) :
  anywhere p node = false -> p node = false.
Proof. rewrite anywhere_children, orb_false_iff. tauto. Qed.

(** The children of a node rebuilt by a visitor that always answers are
    the answers on its children. *)
Lemma children_visitEachChild_total (f : Node -> Node) (node : Node) :
  children (visitEachChild (fun c => Some (f c)) node)
  = map f (children node).
Proof.
  destruct node; simpl; try reflexivity;
    repeat match goal with
      | o : option (list Node) |- _ => destruct o
      | o : option Node |- _ => destruct o
      end; simpl;
    rewrite ?visitNodes_total, ?map_app; simpl;
    rewrite ?map_app; simpl; rewrite ?map_app; reflexivity.
Qed.

Lemma isUnionTypeNode_visitEachChild (v : Visitor) (node : Node) :
  isUnionTypeNode (visitEachChild v node) = isUnionTypeNode node.
Proof. destruct node; reflexivity. Qed.

Lemma visitNodes_id (nodes : list Node) : visitNodes Some nodes = nodes.
Proof. induction nodes; simpl; congruence. Qed.

(** Visiting with the identity rebuilds the same node. *)
Lemma visitEachChild_id (node : Node) : visitEachChild Some node = node.
Proof.
  destruct node; simpl; try reflexivity;
    repeat match goal with
      | o : option (list Node) |- _ => destruct o
      | o : option Node |- _ => destruct o
      end; simpl; rewrite ?visitNodes_id; reflexivity.
Qed.

Lemma visitEachChild_total_compose (f g : Node -> Node) (node : Node) :
  visitEachChild (fun c => Some (g c))
    (visitEachChild (fun c => Some (f c)) node)
  = visitEachChild (fun c => Some (g (f c))) node.
Proof.
  destruct node; simpl; try reflexivity;
    repeat match goal with
      | o : option (list Node) |- _ => destruct o
      | o : option Node |- _ => destruct o
      end; simpl;
    rewrite ?visitNodes_total, ?map_map; reflexivity.
Qed.

(** ** [unionsToIntersections] *)

(** The equation of the source, with the callback named. *)
Lemma unionsToIntersections_eq (node : Node) :
  IndexTs.unionsToIntersections node
  = visitEachChild (fun child => Some (IndexTs.visitUnion child)) node.
Proof.
  transitivity
    (visitEachChild
       (fun child =>
          match child with
          | UnionTypeNode types =>
              Some (IntersectionTypeNode
                      (map IndexTs.unionsToIntersections types))
          | _ => Some (IndexTs.unionsToIntersections child)
          end)
       node).
  - destruct node; reflexivity.
  - apply visitEachChild_ext. intros c _. destruct c; reflexivity.
Qed.

Lemma visitUnion_not_union (node : Node) :
  isUnionTypeNode node = false ->
  IndexTs.visitUnion node = IndexTs.unionsToIntersections node.
Proof. destruct node; simpl; intro H; [..|reflexivity]; try reflexivity; discriminate. Qed.

(** The children of the rewritten definition are the answers of the
    callback on the children of the definition. *)
Lemma children_unionsToIntersections (node : Node) :
  children (IndexTs.unionsToIntersections node)
  = map IndexTs.visitUnion (children node).
Proof.
  rewrite unionsToIntersections_eq. apply children_visitEachChild_total.
Qed.

(** In a tree whose unions are flat, what the callback answers has no
    union left. *)
Lemma visitUnion_no_union (node : Node) :
  unionsAreFlat node = true ->
  containsUnion (IndexTs.visitUnion node) = false.
Proof.
  unfold unionsAreFlat, containsUnion.
  induction node as [node IH] using Node_children_ind.
  rewrite negb_true_iff. intro Hflat.
  assert (Hchildren : forall c, In c (children node) ->
            anywhere isUnionTypeNode (IndexTs.visitUnion c) = false).
  { intros c Hc. apply IH; [exact Hc|].
    rewrite negb_true_iff. now apply (anywhere_false_children _ node). }
  destruct (isUnionTypeNode node) eqn:Hunion.
  - destruct node; try discriminate. simpl in Hchildren.
    apply anywhere_false_here in Hflat. simpl in Hflat.
    rewrite existsb_false_iff in Hflat.
    change (IndexTs.visitUnion (UnionTypeNode types))
      with (IntersectionTypeNode (map IndexTs.unionsToIntersections types)).
    rewrite anywhere_children. simpl.
    apply existsb_false_iff. intros c Hc.
    apply in_map_iff in Hc as (t & <- & Ht).
    rewrite <- visitUnion_not_union by now apply Hflat.
    now apply Hchildren.
  - rewrite visitUnion_not_union by exact Hunion.
    rewrite anywhere_children, children_unionsToIntersections.
    rewrite unionsToIntersections_eq at 1.
    rewrite isUnionTypeNode_visitEachChild, Hunion. simpl.
    apply existsb_false_iff. intros c Hc.
    apply in_map_iff in Hc as (t & <- & Ht). now apply Hchildren.
Qed.

(** The pass of index.ts replaces, in place, the definition of every type
    alias by its rewriting. *)
Lemma rename_force_alias (statements : list Node) (index : nat)
  (decorators modifiers : option (list Node)) (name : Node)
  (typeParameters : option (list Node)) (type : Node) :
  nth_error statements index
  = Some (TypeAliasDeclaration decorators modifiers name typeParameters type) ->
  nth_error
    (statementsOf
       (IndexTs.renameTsconfigTypeForceIntersectionsRemoveOtherExports
          (SourceFile statements)))
    index
  = Some (TypeAliasDeclaration decorators modifiers (Identifier "Tsconfig")
            typeParameters (IndexTs.unionsToIntersections type)).
Proof.
  unfold IndexTs.renameTsconfigTypeForceIntersectionsRemoveOtherExports.
  simpl. revert index.
  induction statements as [|s rest IH]; intros [|index]; simpl;
    try discriminate.
  - intro H. injection H as ->. reflexivity.
  - intro H. destruct s; simpl; now apply IH.
Qed.

Lemma asIntersections_eq (node : Node) :
  isUnionTypeNode node = false ->
  asIntersections node = asIntersectionsBelow node.
Proof. destruct node; simpl; intro H; try reflexivity; discriminate. Qed.

(** In a tree whose unions are flat, the callback answers the tree with
    every union replaced by the intersection of its members. *)
Lemma visitUnion_asIntersections (node : Node) :
  unionsAreFlat node = true ->
  IndexTs.visitUnion node = asIntersections node.
Proof.
  unfold unionsAreFlat.
  induction node as [node IH] using Node_children_ind.
  rewrite negb_true_iff. intro Hflat.
  assert (Hchildren : forall c, In c (children node) ->
            IndexTs.visitUnion c = asIntersections c).
  { intros c Hc. apply IH; [exact Hc|].
    rewrite negb_true_iff. now apply (anywhere_false_children _ node). }
  destruct (isUnionTypeNode node) eqn:Hunion.
  - destruct node; try discriminate. simpl in Hchildren.
    apply anywhere_false_here in Hflat. simpl in Hflat.
    rewrite existsb_false_iff in Hflat.
    change (IndexTs.visitUnion (UnionTypeNode types))
      with (IntersectionTypeNode (map IndexTs.unionsToIntersections types)).
    change (asIntersections (UnionTypeNode types))
      with (IntersectionTypeNode (map asIntersections types)).
    f_equal. apply map_ext_in. intros t Ht.
    rewrite <- visitUnion_not_union by now apply Hflat.
    now apply Hchildren.
  - rewrite visitUnion_not_union by exact Hunion.
    rewrite asIntersections_eq by exact Hunion.
    rewrite unionsToIntersections_eq. apply visitEachChild_ext.
    intros c Hc. f_equal. now apply Hchildren.
Qed.

Lemma unionsToIntersections_asIntersectionsBelow (node : Node) :
  unionsAreFlat node = true ->
  IndexTs.unionsToIntersections node = asIntersectionsBelow node.
Proof.
  intro Hflat. rewrite unionsToIntersections_eq.
  apply visitEachChild_ext. intros c Hc. f_equal.
  apply visitUnion_asIntersections.
  unfold unionsAreFlat in *. rewrite negb_true_iff in *.
  now apply (anywhere_false_children _ node).
Qed.

(** C6, as the code has it.  In the force-intersections configuration the
    root-renaming pass puts, in the place of the root alias, the alias
    renamed and with its definition rewritten.  When no union of the
    definition has a union as a direct member, the rewritten definition
    is, up to parentheses, the definition with every union strictly
    below its root replaced by the intersection of the same members,
    themselves rewritten; its root has the kind it had, so that a
    definition that is itself a union stays a union; no union is left
    strictly below it, nor at its root unless the definition itself is
    a union. *)
Theorem unions_below_root_definition_become_intersections
  (statements : list Node) (index : nat)
  (decorators modifiers : option (list Node))
  (name : Node) (typeParameters : option (list Node)) (type : Node) :
  nth_error statements index
  = Some (TypeAliasDeclaration decorators modifiers name typeParameters type) ->
  unionsAreFlat type = true ->
  exists type',
    nth_error
      (statementsOf
         (IndexTs.renameTsconfigTypeForceIntersectionsRemoveOtherExports
            (SourceFile statements)))
      index
    = Some (TypeAliasDeclaration decorators modifiers (Identifier "Tsconfig")
              typeParameters type')
    /\ withoutParentheses type'
       = withoutParentheses (asIntersectionsBelow type)
    /\ isUnionTypeNode type' = isUnionTypeNode type
    /\ (forall c, In c (children type') -> containsUnion c = false)
    /\ (isUnionTypeNode type = false -> containsUnion type' = false).
Proof.
  intros Hnth Hflat. exists (IndexTs.unionsToIntersections type).
  split; [exact (rename_force_alias statements index decorators modifiers
                    name typeParameters type Hnth)|].
  split; [now rewrite unionsToIntersections_asIntersectionsBelow|].
  split; [rewrite unionsToIntersections_eq;
          apply isUnionTypeNode_visitEachChild|].
  split.
  - intros c Hc. rewrite children_unionsToIntersections in Hc.
    apply in_map_iff in Hc as (t & <- & Ht).
    apply visitUnion_no_union.
    unfold unionsAreFlat in *. rewrite negb_true_iff in *.
    now apply (anywhere_false_children _ type).
  - intro Hunion. rewrite <- visitUnion_not_union by exact Hunion.
    now apply visitUnion_no_union.
Qed.

(** [type Root = A & ("x" | (string | number))]: the two nested unions
    become intersections of the same members and no union is left. *)
Lemma unions_below_root_definition_become_intersections_witness :
  exists type',
    nth_error
      (statementsOf
         (IndexTs.renameTsconfigTypeForceIntersectionsRemoveOtherExports
            (SourceFile
               [TypeAliasDeclaration None None (Identifier "Root") None
                  (IntersectionTypeNode
                     [TypeReferenceNode (Identifier "A") None;
                      ParenthesizedTypeNode
                        (UnionTypeNode
                           [LiteralTypeNode (StringLiteral "x");
                            ParenthesizedTypeNode
                              (UnionTypeNode
                                 [Token SyntaxKind.StringKeyword;
                                  Token SyntaxKind.NumberKeyword])])])])))
      0
    = Some (TypeAliasDeclaration None None (Identifier "Tsconfig") None type')
    /\ withoutParentheses type'
       = IntersectionTypeNode
           [TypeReferenceNode (Identifier "A") None;
            IntersectionTypeNode
              [LiteralTypeNode (StringLiteral "x");
               IntersectionTypeNode
                 [Token SyntaxKind.StringKeyword;
                  Token SyntaxKind.NumberKeyword]]]
    /\ containsUnion type' = false.
Proof.
  destruct (unions_below_root_definition_become_intersections
              [TypeAliasDeclaration None None (Identifier "Root") None
                 (IntersectionTypeNode
                    [TypeReferenceNode (Identifier "A") None;
                     ParenthesizedTypeNode
                       (UnionTypeNode
                          [LiteralTypeNode (StringLiteral "x");
                           ParenthesizedTypeNode
                             (UnionTypeNode
                                [Token SyntaxKind.StringKeyword;
                                 Token SyntaxKind.NumberKeyword])])])]
              0 None None (Identifier "Root") None _ eq_refl eq_refl)
    as (type' & Hnth & Hsame & _ & _ & Hnone).
  exists type'. split; [exact Hnth|]. split; [exact Hsame|].
  apply Hnone. reflexivity.
Defined.

(** C6 as stated fails: a definition that is itself a union stays a
    union.  [type Root = string | number] is only renamed. *)
Lemma root_union_is_not_rewritten :
  IndexTs.renameTsconfigTypeForceIntersectionsRemoveOtherExports
    (SourceFile
       [TypeAliasDeclaration None None (Identifier "Root") None
          (UnionTypeNode
             [Token SyntaxKind.StringKeyword; Token SyntaxKind.NumberKeyword])])
  = SourceFile
      [TypeAliasDeclaration None None (Identifier "Tsconfig") None
         (UnionTypeNode
            [Token SyntaxKind.StringKeyword; Token SyntaxKind.NumberKeyword])]
  /\ containsUnion
       (UnionTypeNode
          [Token SyntaxKind.StringKeyword; Token SyntaxKind.NumberKeyword])
     = true.
Proof. split; reflexivity. Qed.

(** ** [removeUnknownIndexSignatures] *)

(** The test of the reducer is the test on the member together with the
    test for a sibling. *)
Lemma isRemovableIndexSignature_split (members : list Node) (cur : Node)
  (i : Z) :
  isRemovableIndexSignature members cur i
  = isStringKeyedUnknownIndexSignature cur
    && (truthy (at_index members (i - 1)) || truthy (at_index members (i + 1))).
Proof. destruct cur; reflexivity. Qed.

(** In a list of two members or more, every member has a sibling. *)
Lemma sibling_exists (members : list Node) (k : nat) (cur : Node) :
  2 <= List.length members ->
  nth_error members k = Some cur ->
  truthy (at_index members (Z.of_nat k - 1))
  || truthy (at_index members (Z.of_nat k + 1)) = true.
Proof.
  intros Hlen Hk. unfold at_index.
  destruct k as [|k'].
  - simpl. destruct members as [|a [|b rest]]; simpl in *; try lia;
      reflexivity.
  - replace (Z.of_nat (S k') - 1 <? 0)%Z with false
      by (symmetry; apply Z.ltb_ge; lia).
    replace (Z.to_nat (Z.of_nat (S k') - 1)) with k' by lia.
    assert (Hlt : k' < List.length members).
    { assert (S k' < List.length members)
        by (apply nth_error_Some; congruence). lia. }
    apply nth_error_Some in Hlt.
    destruct (nth_error members k'); [reflexivity | congruence].
Qed.

Lemma reduceFrom_keptMembers (recurse : Node -> Node) (members : list Node) :
  forall (rest : list Node) (i : Z) (acc : list Node),
    (forall k cur, nth_error rest k = Some cur ->
       isRemovableIndexSignature members cur (i + Z.of_nat k)
       = isStringKeyedUnknownIndexSignature cur) ->
    reduceFrom
      (fun acc cur i =>
         if isRemovableIndexSignature members cur i then acc
         else acc ++ [recurse cur])
      i rest acc
    = acc ++ map recurse
               (filter (fun m => negb (isStringKeyedUnknownIndexSignature m))
                  rest).
Proof.
  induction rest as [|cur rest IH]; intros i acc H; simpl.
  - now rewrite app_nil_r.
  - rewrite IH.
    + pose proof (H 0%nat cur eq_refl) as H0.
      rewrite Z.add_0_r in H0. rewrite H0.
      destruct (isStringKeyedUnknownIndexSignature cur); simpl;
        [reflexivity | now rewrite <- app_assoc].
    + intros k c Hk. rewrite <- (H (S k) c Hk). f_equal. lia.
Qed.

(** With two members or more, the reducer keeps (and rewrites) exactly
    the members that are not string-keyed [unknown] index signatures. *)
Lemma keptMembers_siblings (recurse : Node -> Node) (members : list Node) :
  2 <= List.length members ->
  keptMembers recurse members
  = map recurse
      (filter (fun m => negb (isStringKeyedUnknownIndexSignature m)) members).
Proof.
  intro Hlen. unfold keptMembers, reduce.
  rewrite reduceFrom_keptMembers; [reflexivity|].
  intros k cur Hk. rewrite isRemovableIndexSignature_split. simpl.
  rewrite (sibling_exists members k cur Hlen Hk). apply andb_true_r.
Qed.

(** A sole member has no sibling and is kept. *)
Lemma keptMembers_sole (recurse : Node -> Node) (member : Node) :
  keptMembers recurse [member] = [recurse member].
Proof.
  unfold keptMembers, reduce. simpl.
  rewrite isRemovableIndexSignature_split. simpl.
  now rewrite andb_false_r.
Qed.

Lemma ActionTs_removeUnknownIndexSignatures_eq (node : Node) :
  ActionTs.removeUnknownIndexSignatures node
  = visitEachChild ActionTs.visitUnknownIndexSignatures node.
Proof. destruct node; reflexivity. Qed.

Lemma IndexTs_removeUnknownIndexSignatures_eq (node : Node) :
  IndexTs.removeUnknownIndexSignatures node
  = visitEachChild IndexTs.visitUnknownIndexSignatures node.
Proof. destruct node; reflexivity. Qed.

Lemma isShape_false_visit (node : Node) :
  isShape node = false ->
  ActionTs.visitUnknownIndexSignatures node
  = Some (ActionTs.removeUnknownIndexSignatures node)
  /\ IndexTs.visitUnknownIndexSignatures node
     = Some (IndexTs.removeUnknownIndexSignatures node).
Proof. destruct node; simpl; intro H; try discriminate; split; reflexivity. Qed.

(** A tree without object shapes is returned as it is. *)
Lemma removeUnknownIndexSignatures_no_shape (node : Node) :
  containsShape node = false ->
  ActionTs.removeUnknownIndexSignatures node = node
  /\ IndexTs.removeUnknownIndexSignatures node = node.
Proof.
  unfold containsShape.
  induction node as [node IH] using Node_children_ind. intro H.
  rewrite ActionTs_removeUnknownIndexSignatures_eq,
    IndexTs_removeUnknownIndexSignatures_eq.
  split.
  - rewrite <- (visitEachChild_id node) at 2.
    apply visitEachChild_ext. intros c Hc.
    pose proof (anywhere_false_children _ _ _ H Hc) as Hc'.
    rewrite (proj1 (isShape_false_visit c (anywhere_false_here _ _ Hc'))).
    f_equal. now apply IH.
  - rewrite <- (visitEachChild_id node) at 2.
    apply visitEachChild_ext. intros c Hc.
    pose proof (anywhere_false_children _ _ _ H Hc) as Hc'.
    rewrite (proj2 (isShape_false_visit c (anywhere_false_here _ _ Hc'))).
    f_equal. now apply IH.
Qed.

Lemma In_reduceFrom_keptMembers (recurse : Node -> Node)
  (members : list Node) (x : Node) :
  forall (rest : list Node) (i : Z) (acc : list Node),
    In x (reduceFrom
            (fun acc cur i =>
               if isRemovableIndexSignature members cur i then acc
               else acc ++ [recurse cur])
            i rest acc) ->
    In x acc \/ exists member, In member rest /\ x = recurse member.
Proof.
  induction rest as [|cur rest IH]; intros i acc H; simpl in H.
  - now left.
  - apply IH in H as [H | (member & Hm & ->)].
    + destruct (isRemovableIndexSignature members cur i); [now left|].
      apply in_app_iff in H as [H | [<- | []]]; [now left|].
      right. exists cur. split; [now left | reflexivity].
    + right. exists member. split; [now right | reflexivity].
Qed.

(** A kept member is the pass run on a member of the shape. *)
Lemma In_keptMembers (recurse : Node -> Node) (members : list Node)
  (x : Node) :
  In x (keptMembers recurse members) ->
  exists member, In member members /\ x = recurse member.
Proof.
  intro H. apply In_reduceFrom_keptMembers in H as [[] | H]. exact H.
Qed.

Lemma hasKind_visitEachChild (k : SyntaxKind.t) (v : Visitor) (node : Node) :
  hasKind k (visitEachChild v node) = hasKind k node.
Proof. destruct node; reflexivity. Qed.

Lemma isShape_visitEachChild (v : Visitor) (node : Node) :
  isShape (visitEachChild v node) = isShape node.
Proof. destruct node; reflexivity. Qed.

(** Members none of which is a string-keyed [unknown] index signature
    are all kept. *)
Lemma keptMembers_none_removable (recurse : Node -> Node)
  (members : list Node) :
  (forall member, In member members ->
     isStringKeyedUnknownIndexSignature member = false) ->
  keptMembers recurse members = map recurse members.
Proof.
  intro H. unfold keptMembers, reduce.
  rewrite reduceFrom_keptMembers.
  - simpl. f_equal.
    induction members as [|m ms IH]; simpl; [reflexivity|].
    rewrite (H m (or_introl eq_refl)). simpl. f_equal.
    apply IH. intros x Hx. apply H. now right.
  - intros k cur Hk. rewrite isRemovableIndexSignature_split.
    rewrite (H cur (nth_error_In _ _ Hk)). reflexivity.
Qed.

Section IndexSignaturePass.
Variable keepHeader : bool.
Variable pass : Node -> Node.
Hypothesis pass_eq :
  forall node,
    pass node
    = visitEachChild (fun c => Some (shapeChild keepHeader pass c)) node.

Lemma shapeChild_not_shape (node : Node) :
  isShape node = false -> shapeChild keepHeader pass node = pass node.
Proof. destruct node; simpl; intro H; try discriminate; reflexivity. Qed.

Lemma isShape_pass (node : Node) : isShape (pass node) = isShape node.
Proof. rewrite pass_eq. apply isShape_visitEachChild. Qed.

Lemma hasKind_shapeChild (k : SyntaxKind.t) (node : Node) :
  hasKind k (shapeChild keepHeader pass node) = hasKind k node.
Proof.
  destruct (isShape node) eqn:E.
  - destruct node; try discriminate; simpl;
      try case keepHeader; reflexivity.
  - rewrite shapeChild_not_shape by exact E.
    rewrite pass_eq. apply hasKind_visitEachChild.
Qed.

Lemma typeOf_shapeChild (k : SyntaxKind.t) (node : Node) :
  optHasKind k (typeOf (shapeChild keepHeader pass node))
  = optHasKind k (typeOf node).
Proof.
  destruct (isShape node) eqn:E.
  - destruct node; try discriminate; simpl;
      try case keepHeader; reflexivity.
  - rewrite shapeChild_not_shape by exact E. rewrite pass_eq.
    destruct node; try reflexivity; simpl;
      repeat match goal with
        | o : option Node |- _ => destruct o
        end; simpl; unfold visitNode;
      try apply hasKind_shapeChild; reflexivity.
Qed.

(** The pass keeps a member a string-keyed [unknown] index signature, or
    not one. *)
Lemma isStringKeyedUnknownIndexSignature_pass (member : Node) :
  isStringKeyedUnknownIndexSignature (pass member)
  = isStringKeyedUnknownIndexSignature member.
Proof.
  rewrite pass_eq. destruct member; try reflexivity. simpl.
  rewrite visitNodes_total. unfold visitNode.
  rewrite hasKind_shapeChild. f_equal.
  destruct parameters as [|p ps]; [reflexivity|].
  unfold at_index. simpl. apply typeOf_shapeChild.
Qed.

Lemma keptMembers_twice (members : list Node) :
  (forall member, In member members -> pass (pass member) = pass member) ->
  keptMembers pass (keptMembers pass members) = keptMembers pass members.
Proof.
  intro H.
  destruct members as [|m1 [|m2 rest]].
  - reflexivity.
  - rewrite !keptMembers_sole. f_equal. apply H. now left.
  - rewrite (keptMembers_siblings pass (m1 :: m2 :: rest)) by (simpl; lia).
    set (members := m1 :: m2 :: rest) in *. clearbody members.
    rewrite keptMembers_none_removable.
    + rewrite map_map. apply map_ext_in. intros m Hm.
      apply H. now apply filter_In in Hm.
    + intros x Hx. apply in_map_iff in Hx as (m & <- & Hm).
      apply filter_In in Hm as [_ Hm].
      rewrite isStringKeyedUnknownIndexSignature_pass.
      now apply negb_true_iff.
Qed.

Lemma pass_twice (node : Node) :
  pass (pass node) = pass node
  /\ shapeChild keepHeader pass (shapeChild keepHeader pass node)
     = shapeChild keepHeader pass node.
Proof.
  induction node as [node IH] using Node_children_ind.
  assert (Hpass : pass (pass node) = pass node).
  { rewrite (pass_eq node), (pass_eq (visitEachChild _ node)).
    rewrite visitEachChild_total_compose.
    apply visitEachChild_ext. intros c Hc. f_equal. now apply IH. }
  split; [exact Hpass|].
  destruct (isShape node) eqn:E.
  - destruct node; try discriminate; simpl;
      (assert (K : keptMembers pass (keptMembers pass members)
                   = keptMembers pass members)
        by (apply keptMembers_twice; intros m Hm; apply IH; simpl;
            rewrite ?in_app_iff; simpl; rewrite ?in_app_iff; tauto));
      try case keepHeader; simpl; now rewrite K.
  - rewrite (shapeChild_not_shape node E).
    rewrite shapeChild_not_shape by now rewrite isShape_pass.
    exact Hpass.
Qed.
Lemma children_pass (node : Node) :
  children (pass node) = map (shapeChild keepHeader pass) (children node).
Proof. rewrite pass_eq. apply children_visitEachChild_total. Qed.

Lemma membersOf_shapeChild (child : Node) (members : list Node) :
  membersOf child = Some members ->
  membersOf (shapeChild keepHeader pass child)
  = Some (keptMembers pass members).
Proof.
  destruct child; try discriminate; simpl; intro H; injection H as <-;
    try case keepHeader; reflexivity.
Qed.

(** The pass run on a node puts, in the place of a child that is a
    shape, a shape with the members that the reducer keeps. *)
Lemma pass_on_shape (parent : Node) (index : nat) (child : Node)
  (members : list Node) :
  nth_error (children parent) index = Some child ->
  membersOf child = Some members ->
  exists child',
    nth_error (children (pass parent)) index = Some child'
    /\ membersOf child' = Some (keptMembers pass members).
Proof.
  intros Hnth Hmembers. exists (shapeChild keepHeader pass child). split.
  - rewrite children_pass. now apply map_nth_error.
  - now apply membersOf_shapeChild.
Qed.

(** The members that the reducer keeps have nothing left to remove. *)
Lemma keptMembers_not_removable (members : list Node) :
  Nat.leb 2 (List.length (keptMembers pass members))
  && existsb isStringKeyedUnknownIndexSignature (keptMembers pass members)
  = false.
Proof.
  destruct members as [|m1 [|m2 rest]].
  - reflexivity.
  - rewrite keptMembers_sole. reflexivity.
  - rewrite keptMembers_siblings by (simpl; lia).
    apply andb_false_iff. right. apply existsb_false_iff.
    intros c Hc. apply in_map_iff in Hc as (m & <- & Hm).
    apply filter_In in Hm as [_ Hm].
    rewrite isStringKeyedUnknownIndexSignature_pass.
    now apply negb_true_iff.
Qed.

Lemma hasRemovableMember_not_shape (node : Node) :
  isShape node = false -> hasRemovableMember node = false.
Proof. destruct node; simpl; intro H; try reflexivity; discriminate. Qed.

(** Below what the pass returns, and in what its callback answers, no
    shape has a member left to remove, when no shape is a member of a
    shape and no header of an interface hides one. *)
Lemma pass_leaves_no_removable (node : Node) :
  anywhere hasShapeMember node = false ->
  anywhere hasRemovableInHeader node = false ->
  anywhere hasRemovableMember (shapeChild keepHeader pass node) = false
  /\ (isShape node = false ->
      anywhere hasRemovableMember (pass node) = false).
Proof.
  induction node as [node IH] using Node_children_ind.
  intros Hmember Hheader.
  assert (Hpass : isShape node = false ->
                  anywhere hasRemovableMember (pass node) = false).
  { intro E. rewrite anywhere_children.
    rewrite hasRemovableMember_not_shape by now rewrite isShape_pass.
    simpl. rewrite children_pass. apply existsb_false_iff.
    intros c Hc. apply in_map_iff in Hc as (c0 & <- & Hc0).
    apply IH; [exact Hc0 | now apply (anywhere_false_children _ node) ..]. }
  split; [|exact Hpass].
  destruct (isShape node) eqn:E;
    [|rewrite shapeChild_not_shape by exact E; now apply Hpass].
  assert (Hkept : forall members,
            membersOf node = Some members ->
            forall c, In c (keptMembers pass members) ->
                      anywhere hasRemovableMember c = false).
  { intros members Hm c Hc.
    apply In_keptMembers in Hc as (m & Hin & ->).
    assert (Hchild : In m (children node))
      by (destruct node; try discriminate; injection Hm as <-; simpl;
          rewrite ?in_app_iff; simpl; rewrite ?in_app_iff; tauto).
    apply IH; [exact Hchild | now apply (anywhere_false_children _ node) ..|].
    apply anywhere_false_here in Hmember.
    unfold hasShapeMember in Hmember. rewrite Hm in Hmember.
    rewrite existsb_false_iff in Hmember. now apply Hmember. }
  apply anywhere_false_here in Hheader. unfold hasRemovableInHeader in Hheader.
  rewrite existsb_false_iff in Hheader.
  destruct node; try discriminate;
    cbn [shapeChild]; try case keepHeader;
    rewrite anywhere_children;
    cbn [hasRemovableMember membersOf]; rewrite keptMembers_not_removable;
    apply existsb_false_iff; intros c Hc; cbn [children nodesOpt] in Hc;
    cbn [headerOf] in Hheader;
    repeat (rewrite ?in_app_iff in Hc; simpl in Hc);
    repeat match goal with
      | H : _ \/ _ |- _ => destruct H
      | H : False |- _ => destruct H
      end;
    try (apply (Hkept _ eq_refl); assumption);
    apply Hheader; subst;
    rewrite ?in_app_iff; simpl; rewrite ?in_app_iff; tauto.
Qed.
End IndexSignaturePass.

Lemma IndexTs_pass_eq (node : Node) :
  IndexTs.removeUnknownIndexSignatures node
  = visitEachChild
      (fun c => Some (shapeChild true IndexTs.removeUnknownIndexSignatures c))
      node.
Proof.
  rewrite IndexTs_removeUnknownIndexSignatures_eq.
  apply visitEachChild_ext. intros c _. destruct c; reflexivity.
Qed.

Lemma ActionTs_pass_eq (node : Node) :
  ActionTs.removeUnknownIndexSignatures node
  = visitEachChild
      (fun c => Some (shapeChild false ActionTs.removeUnknownIndexSignatures c))
      node.
Proof.
  rewrite ActionTs_removeUnknownIndexSignatures_eq.
  apply visitEachChild_ext. intros c _. destruct c; reflexivity.
Qed.

(** C3, as the code has it.  Where a child of a node is an object shape
    (an interface declaration or a type literal), the pass run on the
    node, in either variant, puts in its place a shape whose members
    are: with two members or more, the members that are not string-keyed
    index signatures of value type [unknown], in order and rewritten by
    the pass; with a sole member that is such a signature, that member
    rewritten by the pass, which is the original member list when no
    shape is nested inside the signature (as [[k: string]: unknown] has
    none).  And in what the pass returns no shape has a member left to
    remove anywhere below the root, when no shape is a member of a
    shape and none is hidden in the header of an interface, which the
    pass does not enter. *)
Theorem removeUnknownIndexSignatures_on_shape (parent : Node) :
  (forall (index : nat) (child : Node) (members : list Node),
     nth_error (children parent) index = Some child ->
     membersOf child = Some members ->
     exists childOfIndex childOfAction,
       nth_error (children (IndexTs.removeUnknownIndexSignatures parent))
         index
       = Some childOfIndex
       /\ nth_error (children (ActionTs.removeUnknownIndexSignatures parent))
            index
          = Some childOfAction
       /\ (2 <= List.length members ->
           membersOf childOfIndex
           = Some (map IndexTs.removeUnknownIndexSignatures
                     (filter
                        (fun m => negb (isStringKeyedUnknownIndexSignature m))
                        members))
           /\ membersOf childOfAction
              = Some (map ActionTs.removeUnknownIndexSignatures
                        (filter
                           (fun m =>
                              negb (isStringKeyedUnknownIndexSignature m))
                           members)))
       /\ (forall member,
             members = [member] ->
             isStringKeyedUnknownIndexSignature member = true ->
             (membersOf childOfIndex
              = Some [IndexTs.removeUnknownIndexSignatures member]
              /\ membersOf childOfAction
                 = Some [ActionTs.removeUnknownIndexSignatures member])
             /\ (containsShape member = false ->
                 membersOf childOfIndex = Some members
                 /\ membersOf childOfAction = Some members)))
  /\ (anywhere hasShapeMember parent = false ->
      anywhere hasRemovableInHeader parent = false ->
      forall child,
        In child (children (IndexTs.removeUnknownIndexSignatures parent))
        \/ In child (children (ActionTs.removeUnknownIndexSignatures parent)) ->
        anywhere hasRemovableMember child = false).
Proof.
  split.
  - intros index child members Hnth Hmembers.
    destruct (pass_on_shape true IndexTs.removeUnknownIndexSignatures
                IndexTs_pass_eq parent index child members Hnth Hmembers)
      as (childOfIndex & HnthI & HI).
    destruct (pass_on_shape false ActionTs.removeUnknownIndexSignatures
                ActionTs_pass_eq parent index child members Hnth Hmembers)
      as (childOfAction & HnthA & HA).
    exists childOfIndex, childOfAction.
    split; [exact HnthI|]. split; [exact HnthA|].
    rewrite HI, HA. split.
    + intro Hlen. now rewrite !keptMembers_siblings.
    + intros member -> Hsig. rewrite !keptMembers_sole.
      split; [split; reflexivity|].
      intro Hplain.
      destruct (removeUnknownIndexSignatures_no_shape member Hplain)
        as [-> ->].
      split; reflexivity.
  - intros Hmember Hheader child [Hc | Hc].
    + rewrite (children_pass true _ IndexTs_pass_eq) in Hc.
      apply in_map_iff in Hc as (c & <- & Hc).
      apply (pass_leaves_no_removable true _ IndexTs_pass_eq);
        now apply (anywhere_false_children _ parent).
    + rewrite (children_pass false _ ActionTs_pass_eq) in Hc.
      apply in_map_iff in Hc as (c & <- & Hc).
      apply (pass_leaves_no_removable false _ ActionTs_pass_eq);
        now apply (anywhere_false_children _ parent).
Qed.

(** In a source file of [interface A { [k: string]: unknown; x?: string }]
    and [interface B { [k: string]: unknown }], the first interface
    loses its index signature and the second keeps it, in both
    variants, and nothing is left to remove. *)
Lemma removeUnknownIndexSignatures_on_shape_witness :
  let signature :=
    IndexSignatureDeclaration None None
      [ParameterDeclaration None None false (Identifier "k") false
         (Some (Token SyntaxKind.StringKeyword)) None]
      (Token SyntaxKind.UnknownKeyword) in
  let x :=
    PropertySignature None (Identifier "x") true
      (Some (Token SyntaxKind.StringKeyword)) in
  let sourceFile :=
    SourceFile
      [InterfaceDeclaration None None (Identifier "A") None None
         [signature; x];
       InterfaceDeclaration None None (Identifier "B") None None
         [signature]] in
  (exists a a',
      nth_error (children (IndexTs.removeUnknownIndexSignatures sourceFile)) 0
      = Some a
      /\ nth_error
           (children (ActionTs.removeUnknownIndexSignatures sourceFile)) 0
         = Some a'
      /\ membersOf a = Some [x] /\ membersOf a' = Some [x])
  /\ (exists b b',
        nth_error
          (children (IndexTs.removeUnknownIndexSignatures sourceFile)) 1
        = Some b
        /\ nth_error
             (children (ActionTs.removeUnknownIndexSignatures sourceFile)) 1
           = Some b'
        /\ membersOf b = Some [signature]
        /\ membersOf b' = Some [signature])
  /\ (forall child,
        In child (children (IndexTs.removeUnknownIndexSignatures sourceFile))
        \/ In child
             (children (ActionTs.removeUnknownIndexSignatures sourceFile)) ->
        anywhere hasRemovableMember child = false).
Proof.
  intros signature x sourceFile.
  pose proof (removeUnknownIndexSignatures_on_shape sourceFile)
    as [Hshape Hclean].
  split; [|split].
  - destruct (Hshape 0 _ [signature; x] eq_refl eq_refl)
      as (a & a' & Ha & Ha' & Hmany & _).
    exists a, a'. split; [exact Ha|]. split; [exact Ha'|].
    apply Hmany. simpl. lia.
  - destruct (Hshape 1 _ [signature] eq_refl eq_refl)
      as (b & b' & Hb & Hb' & _ & Hsole).
    exists b, b'. split; [exact Hb|]. split; [exact Hb'|].
    apply (Hsole signature eq_refl eq_refl). reflexivity.
  - apply Hclean; reflexivity.
Defined.

(** C3 as stated fails: a shape in the header of an interface that the
    pass rebuilds is not entered.  In
    [interface A<T extends { [k: string]: unknown; x?: string }> { y?: T }]
    the constraint of the type parameter has two members, one of them a
    string-keyed index signature of value type [unknown], and the pass
    of index.ts returns the source file as it is. *)
Lemma shape_in_type_parameter_is_not_stripped :
  let constraint :=
    TypeLiteralNode
      [IndexSignatureDeclaration None None
         [ParameterDeclaration None None false (Identifier "k") false
            (Some (Token SyntaxKind.StringKeyword)) None]
         (Token SyntaxKind.UnknownKeyword);
       PropertySignature None (Identifier "x") true
         (Some (Token SyntaxKind.StringKeyword))] in
  let sourceFile :=
    SourceFile
      [InterfaceDeclaration None None (Identifier "A")
         (Some [TypeParameterDeclaration (Identifier "T") (Some constraint)
                  None])
         None
         [PropertySignature None (Identifier "y") true
            (Some (TypeReferenceNode (Identifier "T") None))]] in
  hasRemovableMember constraint = true
  /\ IndexTs.removeUnknownIndexSignatures sourceFile = sourceFile
  /\ existsb (anywhere hasRemovableMember)
       (statementsOf (IndexTs.removeUnknownIndexSignatures sourceFile))
     = true.
Proof. repeat split. Qed.

(** ** The composed pipelines *)

Lemma isSourceFile_visitEachChild (v : Visitor) (node : Node) :
  isSourceFile (visitEachChild v node) = isSourceFile node.
Proof. destruct node; reflexivity. Qed.

Lemma removeStandaloneUnknownRecsInUnions_sourceFile (statements : list Node) :
  removeStandaloneUnknownRecsInUnions (SourceFile statements)
  = visitEachChild
      (fun child => Some (removeStandaloneUnknownRecsInUnions child))
      (SourceFile statements).
Proof. reflexivity. Qed.

(** Every pass of the two lists maps a source file to a source file. *)
Lemma passes_return_sourceFile (sourceFile : Node) :
  isSourceFile sourceFile = true ->
  isSourceFile (ActionTs.renameTsconfigTypeAndRemoveOtherExports sourceFile)
  = true
  /\ isSourceFile (IndexTs.attachSchemaPropToTopLevel sourceFile) = true
  /\ isSourceFile
       (IndexTs.renameTsconfigTypeForceIntersectionsRemoveOtherExports
          sourceFile) = true
  /\ isSourceFile (removeStandaloneUnknownRecsInUnions sourceFile) = true
  /\ isSourceFile (removeStringMergedWithStringLiterals sourceFile) = true
  /\ isSourceFile (ActionTs.removeUnknownIndexSignatures sourceFile) = true
  /\ isSourceFile (IndexTs.removeUnknownIndexSignatures sourceFile) = true.
Proof.
  intro H. destruct sourceFile; try discriminate.
  rewrite removeStringMergedWithStringLiterals_eq.
  repeat split; reflexivity.
Qed.

Lemma transformerOver_thrown (factories : list (Node -> Node))
  (message : string) :
  fold_left
    (fun result transform =>
       match result with
       | Returned result =>
           let nextResult := transform result in
           if negb (isSourceFile nextResult) then Thrown ""
           else Returned nextResult
       | Thrown message => Thrown message
       end)
    factories (Thrown message)
  = Thrown message.
Proof. induction factories; simpl; auto. Qed.

(** The first pass of the list runs on the source file; the others run
    on what it returns, if that is a source file. *)
Lemma transformerOver_cons (transform : Node -> Node)
  (factories : list (Node -> Node)) (sourceFile : Node) :
  transformerOver (transform :: factories) sourceFile
  = if isSourceFile (transform sourceFile)
    then transformerOver factories (transform sourceFile)
    else Thrown "".
Proof.
  unfold transformerOver. simpl.
  destruct (isSourceFile (transform sourceFile)); simpl;
    [reflexivity | apply transformerOver_thrown].
Qed.

(** C4, as the code has it.  On every source file each of the two
    transformers completes, and what it returns is the source file that
    the passes of its list, applied in order, compute from the input: two
    runs on the same input return the same tree. *)
Theorem transformer_is_the_composition_of_its_passes (sourceFile : Node) :
  isSourceFile sourceFile = true ->
  ActionTs.transformer sourceFile
  = Returned
      (ActionTs.removeUnknownIndexSignatures
         (removeStringMergedWithStringLiterals
            (removeStandaloneUnknownRecsInUnions
               (ActionTs.renameTsconfigTypeAndRemoveOtherExports sourceFile))))
  /\ IndexTs.transformer sourceFile
     = Returned
         (IndexTs.removeUnknownIndexSignatures
            (removeStringMergedWithStringLiterals
               (removeStandaloneUnknownRecsInUnions
                  (IndexTs.renameTsconfigTypeForceIntersectionsRemoveOtherExports
                     (IndexTs.attachSchemaPropToTopLevel sourceFile)))))
  /\ (forall result,
        ActionTs.transformer sourceFile = Returned result
        \/ IndexTs.transformer sourceFile = Returned result ->
        isSourceFile result = true).
Proof.
  intro H.
  assert (step : forall transform factories node,
            isSourceFile (transform node) = true ->
            transformerOver (transform :: factories) node
            = transformerOver factories (transform node)).
  { intros transform factories node Ht.
    now rewrite transformerOver_cons, Ht. }
  assert (HA : forall node, isSourceFile node = true ->
            isSourceFile (ActionTs.renameTsconfigTypeAndRemoveOtherExports node)
            = true) by (intros; now apply passes_return_sourceFile).
  assert (HS : forall node, isSourceFile node = true ->
            isSourceFile (IndexTs.attachSchemaPropToTopLevel node) = true)
    by (intros; now apply passes_return_sourceFile).
  assert (HF : forall node, isSourceFile node = true ->
            isSourceFile
              (IndexTs.renameTsconfigTypeForceIntersectionsRemoveOtherExports
                 node) = true)
    by (intros; now apply passes_return_sourceFile).
  assert (HU : forall node, isSourceFile node = true ->
            isSourceFile (removeStandaloneUnknownRecsInUnions node) = true)
    by (intros; now apply passes_return_sourceFile).
  assert (HM : forall node, isSourceFile node = true ->
            isSourceFile (removeStringMergedWithStringLiterals node) = true)
    by (intros; now apply passes_return_sourceFile).
  assert (HXA : forall node, isSourceFile node = true ->
            isSourceFile (ActionTs.removeUnknownIndexSignatures node) = true)
    by (intros; now apply passes_return_sourceFile).
  assert (HXI : forall node, isSourceFile node = true ->
            isSourceFile (IndexTs.removeUnknownIndexSignatures node) = true)
    by (intros; now apply passes_return_sourceFile).
  assert (EA : ActionTs.transformer sourceFile
          = Returned
              (ActionTs.removeUnknownIndexSignatures
                 (removeStringMergedWithStringLiterals
                    (removeStandaloneUnknownRecsInUnions
                       (ActionTs.renameTsconfigTypeAndRemoveOtherExports
                          sourceFile))))).
  { unfold ActionTs.transformer, ActionTs.getTransformerFactories.
    rewrite !step by auto 10. reflexivity. }
  assert (EI : IndexTs.transformer sourceFile
          = Returned
              (IndexTs.removeUnknownIndexSignatures
                 (removeStringMergedWithStringLiterals
                    (removeStandaloneUnknownRecsInUnions
                       (IndexTs.renameTsconfigTypeForceIntersectionsRemoveOtherExports
                          (IndexTs.attachSchemaPropToTopLevel sourceFile)))))).
  { unfold IndexTs.transformer, IndexTs.getTransformerFactories.
    rewrite !step by auto 10. reflexivity. }
  split; [exact EA|]. split; [exact EI|].
  intros result [Hr | Hr].
  - rewrite EA in Hr. injection Hr as <-. auto 10.
  - rewrite EI in Hr. injection Hr as <-. auto 10.
Qed.

(** On [interface CompilerOptionsDefinition {}] the transformer of
    index.ts returns the interface with the [$schema] member. *)
Lemma transformer_is_the_composition_of_its_passes_witness :
  IndexTs.transformer
    (SourceFile
       [InterfaceDeclaration None None (Identifier "CompilerOptionsDefinition")
          None None []])
  = Returned
      (SourceFile
         [InterfaceDeclaration None None
            (Identifier "CompilerOptionsDefinition") None None
            [IndexTs.schemaProp]]).
Proof.
  exact (proj1 (proj2 (transformer_is_the_composition_of_its_passes
                         (SourceFile
                            [InterfaceDeclaration None None
                               (Identifier "CompilerOptionsDefinition")
                               None None []])
                         eq_refl))).
Defined.

(** C4 as stated fails: neither pipeline is idempotent.  The transformer
    of index.ts prepends one more [$schema] member to
    [interface CompilerOptionsDefinition {}] each time it runs; the
    transformer of action.ts turns
    [type T = string | { [k: string]: unknown; [j: string]: string }]
    into [string | { [j: string]: string }] and that into [string]. *)
Lemma pipelines_are_not_idempotent :
  (exists once twice,
      IndexTs.transformer
        (SourceFile
           [InterfaceDeclaration None None
              (Identifier "CompilerOptionsDefinition") None None []])
      = Returned once
      /\ IndexTs.transformer once = Returned twice
      /\ once <> twice)
  /\ (exists once twice,
        ActionTs.transformer
          (SourceFile
             [TypeAliasDeclaration None None (Identifier "T") None
                (UnionTypeNode
                   [Token SyntaxKind.StringKeyword;
                    TypeLiteralNode
                      [IndexSignatureDeclaration None None
                         [ParameterDeclaration None None false
                            (Identifier "k") false
                            (Some (Token SyntaxKind.StringKeyword)) None]
                         (Token SyntaxKind.UnknownKeyword);
                       IndexSignatureDeclaration None None
                         [ParameterDeclaration None None false
                            (Identifier "j") false
                            (Some (Token SyntaxKind.StringKeyword)) None]
                         (Token SyntaxKind.StringKeyword)]])])
        = Returned once
        /\ ActionTs.transformer once = Returned twice
        /\ once <> twice).
Proof.
  split.
  - eexists. eexists. split; [reflexivity|]. split; [reflexivity|].
    discriminate.
  - eexists. eexists. split; [reflexivity|]. split; [reflexivity|].
    discriminate.
Qed.

(** ** Where the passes depart from what is said of them *)

(** The equation of the source on a union. *)
Lemma removeStandaloneUnknownRecsInUnions_union (types : list Node) :
  removeStandaloneUnknownRecsInUnions (UnionTypeNode types)
  = UnionTypeNode
      (map (visitEachChild
              (fun child => Some (removeStandaloneUnknownRecsInUnions child)))
         (filter keepInUnion types)).
Proof. simpl. now rewrite filterThenMap_eq. Qed.

(** The members that the filter drops: the type literals whose sole
    member is an index signature with one parameter of type [string].
    The value type of the signature is not looked at. *)
Lemma keepInUnion_false_iff (type : Node) :
  keepInUnion type = false
  <-> exists decorators modifiers parameter valueType,
        type = TypeLiteralNode
                 [IndexSignatureDeclaration decorators modifiers [parameter]
                    valueType]
        /\ optHasKind SyntaxKind.StringKeyword (typeOf parameter) = true.
Proof.
  split.
  - destruct type as [| | | | | | | |members| | | | | | | | | |];
      try discriminate.
    destruct members as [|firstMember [|second rest]]; try discriminate.
    destruct firstMember
      as [| | | | | | | | | | | |decorators modifiers parameters valueType
          | | | | | |]; try discriminate.
    destruct parameters as [|parameter [|p2 ps]]; try discriminate.
    simpl.
    destruct (optHasKind SyntaxKind.StringKeyword (typeOf parameter)) eqn:E;
      [|discriminate].
    intros _. now exists decorators, modifiers, parameter, valueType.
  - intros (decorators & modifiers & parameter & valueType & -> & H).
    simpl. now rewrite H.
Qed.

(** C1 fails on the code.  In [type T = string | { [k: string]: number }]
    the second member of the union is a type literal whose sole member
    is a string-keyed index signature of value type [number], not
    [unknown]; the pass removes it all the same and leaves
    [type T = string]. *)
Theorem standalone_rec_removed_whatever_its_value_type :
  removeStandaloneUnknownRecsInUnions
    (SourceFile
       [TypeAliasDeclaration None None (Identifier "T") None
          (UnionTypeNode
             [Token SyntaxKind.StringKeyword;
              TypeLiteralNode
                [IndexSignatureDeclaration None None
                   [ParameterDeclaration None None false (Identifier "k")
                      false (Some (Token SyntaxKind.StringKeyword)) None]
                   (Token SyntaxKind.NumberKeyword)]])])
  = SourceFile
      [TypeAliasDeclaration None None (Identifier "T") None
         (UnionTypeNode [Token SyntaxKind.StringKeyword])].
Proof. reflexivity. Qed.

(** What the callback of [removeStringMergedWithStringLiterals] answers
    on a union that intersects with a string literal: the members of
    kind [string] are dropped, the others go through [removeWideStrings]
    and then through the callback again. *)
Lemma visitStringMerged_union (types : list Node) :
  intersectsWithStringLiteral (UnionTypeNode types) = true ->
  visitStringMerged (UnionTypeNode types)
  = Some (UnionTypeNode
            (visitNodes visitStringMerged
               (visitNodes visitWideStrings types))).
Proof.
  intro H. unfold visitStringMerged. rewrite H.
  rewrite removeWideStrings_union, removeStringMergedWithStringLiterals_eq.
  reflexivity.
Qed.

Lemma visitStringMerged_intersection (types : list Node) :
  intersectsWithStringLiteral (IntersectionTypeNode types) = true ->
  visitStringMerged (IntersectionTypeNode types)
  = Some (IntersectionTypeNode
            (visitNodes visitStringMerged
               (visitNodes visitWideStrings types))).
Proof.
  intro H. unfold visitStringMerged. rewrite H.
  rewrite removeWideStrings_intersection,
    removeStringMergedWithStringLiterals_eq.
  reflexivity.
Qed.

(** A direct member of kind [string] is dropped by the callback of
    [removeWideStrings]; a string literal type is kept as it is. *)
Lemma visitWideStrings_members (text : string) :
  visitWideStrings (Token SyntaxKind.StringKeyword) = None
  /\ visitWideStrings (LiteralTypeNode (StringLiteral text))
     = Some (LiteralTypeNode (StringLiteral text)).
Proof. split; reflexivity. Qed.

(** C2 fails on the code.  In [type T = "a" | (string)] the union
    combines a string literal with the wide string type inside a
    parenthesized wrapper; [removeWideStrings] unwraps the parentheses
    and returns [string] as it is, so that the pass leaves
    [type T = "a" | string]. *)
Theorem parenthesized_wide_string_is_kept :
  removeStringMergedWithStringLiterals
    (SourceFile
       [TypeAliasDeclaration None None (Identifier "T") None
          (UnionTypeNode
             [LiteralTypeNode (StringLiteral "a");
              ParenthesizedTypeNode (Token SyntaxKind.StringKeyword)])])
  = SourceFile
      [TypeAliasDeclaration None None (Identifier "T") None
         (UnionTypeNode
            [LiteralTypeNode (StringLiteral "a");
             Token SyntaxKind.StringKeyword])].
Proof. reflexivity. Qed.

(** The variant of index.ts rebuilds a visited interface with its own
    decorators, modifiers, name, type parameters and heritage clauses. *)
Lemma IndexTs_removeUnknownIndexSignatures_frame
  (decorators modifiers : option (list Node)) (name : Node)
  (typeParameters heritageClauses : option (list Node))
  (members : list Node) :
  IndexTs.visitUnknownIndexSignatures
    (InterfaceDeclaration decorators modifiers name typeParameters
       heritageClauses members)
  = Some (InterfaceDeclaration decorators modifiers name typeParameters
            heritageClauses
            (keptMembers IndexTs.removeUnknownIndexSignatures members)).
Proof. reflexivity. Qed.

(** C10 fails on the code of action.ts.  The pass rebuilds
    [export interface A { x?: string }] with [undefined] for its
    modifiers: the export keyword is gone, though no member was
    removed. *)
Theorem action_removeUnknownIndexSignatures_drops_modifiers :
  ActionTs.removeUnknownIndexSignatures
    (SourceFile
       [InterfaceDeclaration None (Some [Token SyntaxKind.ExportKeyword])
          (Identifier "A") None None
          [PropertySignature None (Identifier "x") true
             (Some (Token SyntaxKind.StringKeyword))]])
  = SourceFile
      [InterfaceDeclaration None None (Identifier "A") None None
         [PropertySignature None (Identifier "x") true
            (Some (Token SyntaxKind.StringKeyword))]].
Proof. reflexivity. Qed.


(** * Further properties of the script *)

(** ** [main]: the order of the effects *)

Lemma takeWhile_all {A : Type} (test : A -> bool) (l : list A) :
  takeWhile test l = l <-> forallb test l = true.
Proof.
  induction l as [|x rest IH]; simpl; [tauto|].
  destruct (test x); simpl.
  - rewrite <- IH. split; [now intros [= ->] | now intros ->].
  - split; discriminate.
Qed.

(** X1. From the formatted source on, and unless the run stops on an
    unchanged checksum, either variant of [main] goes through the
    effects of its plan in order up to the first one that fails and does
    nothing after it: in development mode the plan is the write of the
    output file alone, in production mode the checksum write, the output
    write, then the git and versioning commands.  It returns exactly
    when it got past every effect of the plan.  In action.ts the call of
    standard-version is not awaited: [main] always gets past it, and
    whether standard-version succeeds has no part in what [main] does
    or returns. *)
Theorem main_performs_its_plan_in_order
  (md5 : string -> string) (succeeds : Effect -> bool) (mode : bool)
  (previousChecksum formatted : string) :
  mode = true \/ String.eqb (md5 formatted) previousChecksum = false ->
  (fst (main_action md5 succeeds mode previousChecksum formatted)
   = takeWhile (getsPast succeeds)
       (releasePlan_action mode (md5 formatted) formatted)
   /\ (snd (main_action md5 succeeds mode previousChecksum formatted)
       = Returned tt
       <-> forallb (getsPast succeeds)
             (releasePlan_action mode (md5 formatted) formatted) = true))
  /\ (fst (main_index md5 succeeds mode previousChecksum formatted)
      = takeWhile (getsPast succeeds)
          (releasePlan_index mode (md5 formatted) formatted)
      /\ (snd (main_index md5 succeeds mode previousChecksum formatted)
          = Returned tt
          <-> forallb (getsPast succeeds)
                (releasePlan_index mode (md5 formatted) formatted) = true))
  /\ (forall succeeds',
        (forall e, isStandardVersion e = false ->
                   succeeds' e = succeeds e) ->
        main_action md5 succeeds' mode previousChecksum formatted
        = main_action md5 succeeds mode previousChecksum formatted).
Proof.
  intro Hmode. split; [|split].
  - destruct Hmode as [-> | Hnew];
      [| destruct mode];
      unfold main_action, releasePlan_action, getsPast,
        when, perform, start, bind, throw, ret; simpl; rewrite ?Hnew; simpl;
      (split;
       repeat match goal with
         | |- context [succeeds ?e] => destruct (succeeds e); simpl
         end;
       try reflexivity; split; intro H; try reflexivity; discriminate).
  - destruct Hmode as [-> | Hnew];
      [| destruct mode];
      unfold main_index, releasePlan_index, getsPast,
        when, perform, start, bind, throw, ret; simpl; rewrite ?Hnew; simpl;
      (split;
       repeat match goal with
         | |- context [succeeds ?e] => destruct (succeeds e); simpl
         end;
       try reflexivity; split; intro H; try reflexivity; discriminate).
  - intros succeeds' Hsame.
    unfold main_action, when, perform, start, bind, throw, ret.
    rewrite !Hsame by reflexivity. reflexivity.
Qed.

(** In production mode with a new checksum and a failing commit, [main]
    of action.ts has written both files and staged the changes, and
    goes no further. *)
Lemma main_performs_its_plan_in_order_witness :
  fst (main_action (fun s => s)
         (fun e => match e with
                   | ExecSync GitCommitFeat => false
                   | _ => true
                   end)
         false "d41d8" "98f13")
  = [WriteFile "checksum.json" (ChecksumRecord "98f13");
     WriteFile "the_type.d.ts" (Text "98f13");
     ExecSync GitAddAll].
Proof.
  exact (proj1 (proj1 (main_performs_its_plan_in_order (fun s => s)
                         (fun e => match e with
                                   | ExecSync GitCommitFeat => false
                                   | _ => true
                                   end)
                         false "d41d8" "98f13" (or_intror eq_refl)))).
Defined.

(** ** The transformer: lists of passes compose *)

(** X2. Running the transformer over two lists of passes in a row is
    running it over the first list and, if that returns, over the second
    list on what it returned; an error of the first list is the error of
    the whole. *)
Theorem transformerOver_app (first second : list (Node -> Node))
  (sourceFile : Node) :
  transformerOver (first ++ second) sourceFile
  = match transformerOver first sourceFile with
    | Returned result => transformerOver second result
    | Thrown message => Thrown message
    end.
Proof.
  unfold transformerOver. rewrite fold_left_app.
  destruct (fold_left _ first (Returned sourceFile)) as [r|m];
    [reflexivity | apply transformerOver_thrown].
Qed.

(** ** Leaves *)

Lemma leaves_leaf (node : Node) : isLeaf node = true -> leaves node = [node].
Proof. destruct node; simpl; intro H; try discriminate; reflexivity. Qed.

Lemma leaves_children (node : Node) :
  isLeaf node = false -> leaves node = flat_map leaves (children node).
Proof.
  destruct node; simpl; intro H; try discriminate;
    repeat match goal with
      | o : option (list Node) |- _ => destruct o
      | o : option Node |- _ => destruct o
      end; simpl;
    repeat (rewrite ?flat_map_app; simpl);
    rewrite ?app_nil_r, <- ?app_assoc; reflexivity.
Qed.

Lemma visitEachChild_leaf (v : Visitor) (node : Node) :
  isLeaf node = true -> visitEachChild v node = node.
Proof. destruct node; simpl; intro H; try discriminate; reflexivity. Qed.

Lemma isLeaf_visitEachChild (v : Visitor) (node : Node) :
  isLeaf (visitEachChild v node) = isLeaf node.
Proof. destruct node; reflexivity. Qed.

(** The leaves but [string] of an array of nodes, node by node. *)
Lemma leavesButString_nodes (nodes : list Node) :
  filter (fun leaf => negb (hasKind SyntaxKind.StringKeyword leaf))
    (flat_map leaves nodes)
  = flat_map leavesButString nodes.
Proof.
  induction nodes as [|n rest IH]; simpl; [reflexivity|].
  rewrite filter_app, IH. reflexivity.
Qed.

Lemma leavesButString_children (node : Node) :
  isLeaf node = false ->
  leavesButString node = flat_map leavesButString (children node).
Proof.
  intro H. unfold leavesButString at 1.
  rewrite (leaves_children node H). apply leavesButString_nodes.
Qed.

Lemma flat_map_map_ext {A : Type} (f : Node -> list A) (g : Node -> Node)
  (nodes : list Node) :
  (forall c, In c nodes -> f (g c) = f c) ->
  flat_map f (map g nodes) = flat_map f nodes.
Proof.
  induction nodes as [|n rest IH]; simpl; intro H; [reflexivity|].
  rewrite (H n) by now left.
  rewrite IH by (intros c Hc; apply H; now right). reflexivity.
Qed.

(** A visitor that drops only nodes without the leaves counted and keeps
    the leaves of what it answers leaves the leaves of an array as they
    are. *)
Lemma flat_map_visitNodes {A : Type} (f : Node -> list A) (v : Visitor)
  (nodes : list Node) :
  (forall c, In c nodes ->
     match v c with Some c' => f c' | None => [] end = f c) ->
  flat_map f (visitNodes v nodes) = flat_map f nodes.
Proof.
  induction nodes as [|n rest IH]; simpl; intro H; [reflexivity|].
  pose proof (H n (or_introl eq_refl)) as Hn.
  rewrite <- Hn, <- IH by (intros c Hc; apply H; now right).
  destruct (v n); reflexivity.
Qed.

(** ** [removeWideStrings] *)

(** X4. [removeWideStrings] never answers a parenthesized type: the
    wrappers at the root of its argument are unwrapped. *)
Theorem removeWideStrings_unwraps (node : Node) :
  isParenthesizedTypeNode (removeWideStrings node) = false.
Proof.
  induction node as [node IH] using Node_children_ind.
  destruct node; try reflexivity.
  rewrite removeWideStrings_parenthesized. apply IH. now left.
Qed.

Lemma leavesButString_removeWideStrings (node : Node) :
  leavesButString (removeWideStrings node) = leavesButString node.
Proof.
  induction node as [node IH] using Node_children_ind.
  assert (Hlist : forall types,
            (forall c, In c types ->
               leavesButString (removeWideStrings c) = leavesButString c) ->
            flat_map leavesButString (visitNodes visitWideStrings types)
            = flat_map leavesButString types).
  { intros types H. apply flat_map_visitNodes. intros c Hc.
    unfold visitWideStrings.
    destruct (hasKind SyntaxKind.StringKeyword c) eqn:E.
    - destruct c; try discriminate. unfold leavesButString. simpl.
      simpl in E. now rewrite E.
    - now apply H. }
  destruct node; try reflexivity.
  - rewrite removeWideStrings_union.
    rewrite !leavesButString_children by reflexivity. simpl.
    apply Hlist. exact IH.
  - rewrite removeWideStrings_intersection.
    rewrite !leavesButString_children by reflexivity. simpl.
    apply Hlist. exact IH.
  - rewrite removeWideStrings_parenthesized.
    rewrite (leavesButString_children (ParenthesizedTypeNode node))
      by reflexivity.
    simpl. rewrite app_nil_r. apply IH. now left.
Qed.

(** X5. [removeWideStrings] removes nothing but keywords [string] (and
    the parentheses it unwraps): the other leaves of the tree are the
    same, in the same order. *)
Theorem removeWideStrings_keeps_other_leaves (node : Node) :
  leavesButString (removeWideStrings node) = leavesButString node.
Proof. apply leavesButString_removeWideStrings. Qed.

(** X6. [removeWideStrings] keeps the answer of
    [intersectsWithStringLiteral]: a node that intersects with a string
    literal still does after its wide strings are removed, and no other
    node starts to. *)
Theorem removeWideStrings_keeps_intersectsWithStringLiteral (node : Node) :
  intersectsWithStringLiteral (removeWideStrings node)
  = intersectsWithStringLiteral node.
Proof.
  induction node as [node IH] using Node_children_ind.
  assert (Hlist : forall types,
            (forall c, In c types ->
               intersectsWithStringLiteral (removeWideStrings c)
               = intersectsWithStringLiteral c) ->
            existsb intersectsWithStringLiteral
              (visitNodes visitWideStrings types)
            = existsb intersectsWithStringLiteral types).
  { induction types as [|c rest IHrest]; simpl; intro H; [reflexivity|].
    unfold visitWideStrings at 1.
    destruct (hasKind SyntaxKind.StringKeyword c) eqn:E.
    - destruct c; try discriminate. simpl.
      apply IHrest. intros c Hc. apply H. now right.
    - simpl. rewrite (H c) by now left.
      rewrite IHrest by (intros c' Hc'; apply H; now right). reflexivity. }
  destruct node; try reflexivity.
  - rewrite removeWideStrings_union. simpl.
    rewrite Hlist by exact IH. reflexivity.
  - rewrite removeWideStrings_intersection. simpl.
    rewrite Hlist by exact IH. reflexivity.
  - rewrite removeWideStrings_parenthesized. simpl.
    apply IH. now left.
Qed.

(** ** [removeStringMergedWithStringLiterals] *)

Lemma visitStringMerged_mergedChild (child : Node) :
  visitStringMerged child = Some (mergedChild child).
Proof.
  unfold visitStringMerged, mergedChild.
  destruct (intersectsWithStringLiteral child); reflexivity.
Qed.

Lemma removeStringMergedWithStringLiterals_children (node : Node) :
  removeStringMergedWithStringLiterals node
  = visitEachChild (fun child => Some (mergedChild child)) node.
Proof.
  rewrite removeStringMergedWithStringLiterals_eq.
  apply visitEachChild_ext. intros c _. apply visitStringMerged_mergedChild.
Qed.

Lemma removeStringMerged_keeps_other_leaves_sized (m : nat) :
  forall node, size node <= m ->
    leavesButString (removeStringMergedWithStringLiterals node)
    = leavesButString node.
Proof.
  induction m as [|m IH]; intros node Hm.
  - pose proof (size_pos node). lia.
  - rewrite removeStringMergedWithStringLiterals_children.
    destruct (isLeaf node) eqn:Hleaf.
    + now rewrite visitEachChild_leaf.
    + rewrite leavesButString_children
        by now rewrite isLeaf_visitEachChild.
      rewrite children_visitEachChild_total.
      rewrite (leavesButString_children node Hleaf).
      apply flat_map_map_ext. intros c Hc.
      apply size_children in Hc.
      pose proof (size_removeWideStrings c).
      unfold mergedChild.
      destruct (intersectsWithStringLiteral c).
      * rewrite IH by lia. apply leavesButString_removeWideStrings.
      * apply IH. lia.
Qed.

(** X7. [removeStringMergedWithStringLiterals] removes nothing but
    keywords [string]: every identifier, literal and other token of the
    tree is still there, in the same order. *)
Theorem removeStringMerged_keeps_other_leaves (node : Node) :
  leavesButString (removeStringMergedWithStringLiterals node)
  = leavesButString node.
Proof.
  apply (removeStringMerged_keeps_other_leaves_sized (size node)). lia.
Qed.

Lemma no_string_literal_type_no_intersection (node : Node) :
  anywhere isStringLiteralType node = false ->
  intersectsWithStringLiteral node = false.
Proof.
  induction node as [node IH] using Node_children_ind. intro H.
  pose proof (anywhere_false_here _ _ H) as Hhere.
  assert (Hc : forall c, In c (children node) ->
            intersectsWithStringLiteral c = false).
  { intros c Hc. apply IH; [exact Hc|].
    now apply (anywhere_false_children _ node). }
  destruct node; try reflexivity; simpl in *.
  - destruct node; try reflexivity. discriminate.
  - rewrite orb_false_r. now apply existsb_false_iff.
  - rewrite orb_false_r. now apply existsb_false_iff.
  - apply Hc. now left.
Qed.

(** X8. A tree without string literal types is returned by
    [removeStringMergedWithStringLiterals] as it is: a keyword [string]
    is only ever removed next to a string literal. *)
Theorem removeStringMerged_without_string_literals (node : Node) :
  anywhere isStringLiteralType node = false ->
  removeStringMergedWithStringLiterals node = node.
Proof.
  induction node as [node IH] using Node_children_ind. intro H.
  rewrite removeStringMergedWithStringLiterals_children.
  rewrite <- (visitEachChild_id node) at 2.
  apply visitEachChild_ext. intros c Hc.
  pose proof (anywhere_false_children _ _ _ H Hc) as Hc'.
  unfold mergedChild.
  rewrite (no_string_literal_type_no_intersection c Hc').
  f_equal. now apply IH.
Qed.

(** [x?: string | number] has no string literal type and keeps its
    keyword [string]. *)
Lemma removeStringMerged_without_string_literals_witness :
  removeStringMergedWithStringLiterals
    (PropertySignature None (Identifier "x") true
       (Some (UnionTypeNode
                [Token SyntaxKind.StringKeyword;
                 Token SyntaxKind.NumberKeyword])))
  = PropertySignature None (Identifier "x") true
      (Some (UnionTypeNode
               [Token SyntaxKind.StringKeyword;
                Token SyntaxKind.NumberKeyword])).
Proof.
  exact (removeStringMerged_without_string_literals
           (PropertySignature None (Identifier "x") true
              (Some (UnionTypeNode
                       [Token SyntaxKind.StringKeyword;
                        Token SyntaxKind.NumberKeyword])))
           eq_refl).
Defined.


(** ** [removeStandaloneUnknownRecsInUnions] *)

Lemma removeStandaloneUnknownRecsInUnions_not_union (node : Node) :
  isUnionTypeNode node = false ->
  removeStandaloneUnknownRecsInUnions node = keptMember node.
Proof. destruct node; simpl; intro H; try discriminate; reflexivity. Qed.

Lemma removeStandaloneUnknownRecsInUnions_members (types : list Node) :
  removeStandaloneUnknownRecsInUnions (UnionTypeNode types)
  = UnionTypeNode (map keptMember (filter keepInUnion types)).
Proof. apply removeStandaloneUnknownRecsInUnions_union. Qed.

Lemma hasKind_removeStandaloneUnknownRecsInUnions (k : SyntaxKind.t)
  (node : Node) :
  hasKind k (removeStandaloneUnknownRecsInUnions node) = hasKind k node.
Proof. destruct node; reflexivity. Qed.

Lemma typeOf_removeStandaloneUnknownRecsInUnions (k : SyntaxKind.t)
  (node : Node) :
  optHasKind k (typeOf (removeStandaloneUnknownRecsInUnions node))
  = optHasKind k (typeOf node).
Proof.
  destruct node; try reflexivity; simpl;
    repeat match goal with
      | o : option Node |- _ => destruct o
      end; simpl; unfold visitNode;
    try apply hasKind_removeStandaloneUnknownRecsInUnions; reflexivity.
Qed.

(** Visiting the children of a member does not change whether the filter
    keeps it. *)
Lemma keepInUnion_keptMember (type : Node) :
  keepInUnion (keptMember type) = keepInUnion type.
Proof.
  destruct type as [| | | | | | | |members| | | | | | | | | |];
    try reflexivity.
  unfold keptMember. simpl. rewrite visitNodes_total.
  destruct members as [|firstMember [|second rest]]; try reflexivity.
  simpl.
  destruct firstMember
    as [| | | | | | | | | | | |decorators modifiers parameters valueType
        | | | | | |]; try reflexivity.
  simpl. rewrite visitNodes_total.
  destruct parameters as [|parameter [|p2 ps]]; try reflexivity.
  simpl. now rewrite typeOf_removeStandaloneUnknownRecsInUnions.
Qed.

(** X9. What [removeStandaloneUnknownRecsInUnions] makes of a union has
    as many members as the filter keeps, and none of them is a member
    that the filter would remove. *)
Theorem removeStandaloneRecs_union_is_clean (types : list Node) :
  exists kept,
    removeStandaloneUnknownRecsInUnions (UnionTypeNode types)
    = UnionTypeNode kept
    /\ List.length kept = List.length (filter keepInUnion types)
    /\ forall member, In member kept -> isStandaloneRec member = false.
Proof.
  exists (map keptMember (filter keepInUnion types)).
  split; [apply removeStandaloneUnknownRecsInUnions_members|].
  split; [apply length_map|].
  intros member Hin. apply in_map_iff in Hin as (t & <- & Ht).
  apply filter_In in Ht as [_ Hkeep].
  unfold isStandaloneRec. now rewrite keepInUnion_keptMember, Hkeep.
Qed.

(** X10. The pass empties a union exactly when every member of it is a
    type literal of a sole string-keyed index signature: nothing guards
    the last member. *)
Theorem removeStandaloneRecs_empties_union_iff (types : list Node) :
  removeStandaloneUnknownRecsInUnions (UnionTypeNode types)
  = UnionTypeNode []
  <-> forall member, In member types -> isStandaloneRec member = true.
Proof.
  rewrite removeStandaloneUnknownRecsInUnions_members.
  unfold isStandaloneRec. split.
  - intros [= H] member Hin.
    destruct (keepInUnion member) eqn:E; [|reflexivity].
    assert (Hf : In member (filter keepInUnion types))
      by (apply filter_In; auto).
    apply (in_map keptMember) in Hf. rewrite H in Hf. destruct Hf.
  - intro H. f_equal.
    induction types as [|t rest IH]; simpl; [reflexivity|].
    pose proof (H t (or_introl eq_refl)) as Ht.
    apply negb_true_iff in Ht. rewrite Ht.
    apply IH. intros m Hm. apply H. now right.
Qed.

Lemma removeStandaloneRecs_fixes (node : Node) :
  anywhere isStandaloneRec node = false ->
  removeStandaloneUnknownRecsInUnions node = node /\ keptMember node = node.
Proof.
  induction node as [node IH] using Node_children_ind. intro H.
  assert (Hkept : keptMember node = node).
  { unfold keptMember. rewrite <- (visitEachChild_id node) at 2.
    apply visitEachChild_ext. intros c Hc. f_equal.
    apply IH; [exact Hc|]. now apply (anywhere_false_children _ node). }
  split; [|exact Hkept].
  destruct (isUnionTypeNode node) eqn:Hunion.
  - destruct node; try discriminate.
    rewrite removeStandaloneUnknownRecsInUnions_members. f_equal.
    simpl in IH.
    assert (Hall : forall c, In c types ->
              keepInUnion c = true /\ keptMember c = c).
    { intros c Hc.
      pose proof (anywhere_false_children _ _ _ H Hc) as Hc'.
      split.
      - apply anywhere_false_here in Hc'. unfold isStandaloneRec in Hc'.
        now apply negb_false_iff in Hc'.
      - now apply IH. }
    clear - Hall. induction types as [|t rest IHr]; simpl; [reflexivity|].
    destruct (Hall t (or_introl eq_refl)) as [-> Ht]. simpl.
    rewrite Ht. f_equal. apply IHr. intros c Hc. apply Hall. now right.
  - now rewrite removeStandaloneUnknownRecsInUnions_not_union.
Qed.

(** X11. Of a tree in which no node is a type literal of a sole
    string-keyed index signature, the pass removes nothing: what it
    returns is the tree, up to parentheses. *)
Theorem removeStandaloneRecs_without_standalone_recs (node : Node) :
  anywhere isStandaloneRec node = false ->
  withoutParentheses (removeStandaloneUnknownRecsInUnions node)
  = withoutParentheses node.
Proof. intro H. f_equal. now apply removeStandaloneRecs_fixes. Qed.

(** [type T = string | { a?: string; [k: string]: unknown }] keeps both
    members of its union. *)
Lemma removeStandaloneRecs_without_standalone_recs_witness :
  withoutParentheses
    (removeStandaloneUnknownRecsInUnions
       (TypeAliasDeclaration None None (Identifier "T") None
          (UnionTypeNode
             [Token SyntaxKind.StringKeyword;
              TypeLiteralNode
                [PropertySignature None (Identifier "a") true
                   (Some (Token SyntaxKind.StringKeyword));
                 IndexSignatureDeclaration None None
                   [ParameterDeclaration None None false (Identifier "k")
                      false (Some (Token SyntaxKind.StringKeyword)) None]
                   (Token SyntaxKind.UnknownKeyword)]])))
  = TypeAliasDeclaration None None (Identifier "T") None
      (UnionTypeNode
         [Token SyntaxKind.StringKeyword;
          TypeLiteralNode
            [PropertySignature None (Identifier "a") true
               (Some (Token SyntaxKind.StringKeyword));
             IndexSignatureDeclaration None None
               [ParameterDeclaration None None false (Identifier "k")
                  false (Some (Token SyntaxKind.StringKeyword)) None]
               (Token SyntaxKind.UnknownKeyword)]]).
Proof.
  match goal with
  | |- withoutParentheses (removeStandaloneUnknownRecsInUnions ?node) = _ =>
      exact (eq_trans
               (removeStandaloneRecs_without_standalone_recs node eq_refl)
               eq_refl)
  end.
Defined.

Lemma removeStandaloneRecs_twice (node : Node) :
  removeStandaloneUnknownRecsInUnions
    (removeStandaloneUnknownRecsInUnions node)
  = removeStandaloneUnknownRecsInUnions node
  /\ keptMember (keptMember node) = keptMember node.
Proof.
  induction node as [node IH] using Node_children_ind.
  assert (Hkept : keptMember (keptMember node) = keptMember node).
  { unfold keptMember. rewrite visitEachChild_total_compose.
    apply visitEachChild_ext. intros c Hc. f_equal. now apply IH. }
  split; [|exact Hkept].
  destruct (isUnionTypeNode node) eqn:Hunion.
  - destruct node; try discriminate. simpl in IH.
    rewrite !removeStandaloneUnknownRecsInUnions_members. f_equal.
    clear Hkept Hunion.
    induction types as [|t rest IHr]; simpl; [reflexivity|].
    assert (IHrest : forall c, In c rest ->
              removeStandaloneUnknownRecsInUnions
                (removeStandaloneUnknownRecsInUnions c)
              = removeStandaloneUnknownRecsInUnions c
              /\ keptMember (keptMember c) = keptMember c)
      by (intros c Hc; apply IH; now right).
    destruct (keepInUnion t) eqn:E; simpl.
    + rewrite keepInUnion_keptMember, E. simpl.
      rewrite (proj2 (IH t (or_introl eq_refl))). f_equal. now apply IHr.
    + now apply IHr.
  - rewrite (removeStandaloneUnknownRecsInUnions_not_union node Hunion).
    rewrite removeStandaloneUnknownRecsInUnions_not_union
      by (unfold keptMember; now rewrite isUnionTypeNode_visitEachChild).
    exact Hkept.
Qed.

(** X12. [removeStandaloneUnknownRecsInUnions] is idempotent: run on
    its own result it changes nothing more. *)
Theorem removeStandaloneRecs_idempotent (node : Node) :
  removeStandaloneUnknownRecsInUnions
    (removeStandaloneUnknownRecsInUnions node)
  = removeStandaloneUnknownRecsInUnions node.
Proof. apply removeStandaloneRecs_twice. Qed.

(** ** [unionsToIntersections] and the root-renaming passes *)

Lemma leaves_unionsToIntersections_both (node : Node) :
  leaves (IndexTs.unionsToIntersections node) = leaves node
  /\ leaves (IndexTs.visitUnion node) = leaves node.
Proof.
  induction node as [node IH] using Node_children_ind.
  assert (Hpass : leaves (IndexTs.unionsToIntersections node) = leaves node).
  { rewrite unionsToIntersections_eq.
    destruct (isLeaf node) eqn:Hleaf.
    - now rewrite visitEachChild_leaf.
    - rewrite leaves_children by now rewrite isLeaf_visitEachChild.
      rewrite children_visitEachChild_total, (leaves_children node Hleaf).
      apply flat_map_map_ext. intros c Hc. now apply IH. }
  split; [exact Hpass|].
  destruct (isUnionTypeNode node) eqn:Hunion.
  - destruct node; try discriminate. simpl. simpl in IH.
    apply flat_map_map_ext. intros c Hc. now apply IH.
  - now rewrite visitUnion_not_union.
Qed.

(** X13. [unionsToIntersections] changes node kinds only: the
    identifiers, literals and keywords of the definition are all kept,
    in the same order. *)
Theorem unionsToIntersections_keeps_leaves (node : Node) :
  leaves (IndexTs.unionsToIntersections node) = leaves node.
Proof. apply leaves_unionsToIntersections_both. Qed.

Lemma unionsToIntersections_fixes (node : Node) :
  containsUnion node = false ->
  IndexTs.visitUnion node = node
  /\ IndexTs.unionsToIntersections node = node.
Proof.
  unfold containsUnion.
  induction node as [node IH] using Node_children_ind. intro H.
  assert (Hpass : IndexTs.unionsToIntersections node = node).
  { rewrite unionsToIntersections_eq.
    rewrite <- (visitEachChild_id node) at 2.
    apply visitEachChild_ext. intros c Hc. f_equal.
    apply IH; [exact Hc|]. now apply (anywhere_false_children _ node). }
  split; [|exact Hpass].
  rewrite visitUnion_not_union; [exact Hpass|].
  now apply anywhere_false_here in H.
Qed.

Lemma unionsToIntersections_twice (node : Node) :
  unionsAreFlat node = true ->
  IndexTs.unionsToIntersections (IndexTs.unionsToIntersections node)
  = IndexTs.unionsToIntersections node.
Proof.
  intro Hflat.
  rewrite (unionsToIntersections_eq (IndexTs.unionsToIntersections node)).
  rewrite <- (visitEachChild_id (IndexTs.unionsToIntersections node)) at 2.
  apply visitEachChild_ext. intros c Hc. f_equal.
  apply unionsToIntersections_fixes.
  rewrite children_unionsToIntersections in Hc.
  apply in_map_iff in Hc as (t & <- & Ht).
  apply visitUnion_no_union.
  unfold unionsAreFlat in *. rewrite negb_true_iff in *.
  now apply (anywhere_false_children _ node).
Qed.

(** X14. When no union of a definition has a union as a direct member,
    [unionsToIntersections] is idempotent on it: the rewritten
    definition has no union left for a second run to rewrite. *)
Theorem unionsToIntersections_idempotent (node : Node) :
  unionsAreFlat node = true ->
  IndexTs.unionsToIntersections (IndexTs.unionsToIntersections node)
  = IndexTs.unionsToIntersections node.
Proof. apply unionsToIntersections_twice. Qed.

(** On [A & (string | number)]. *)
Lemma unionsToIntersections_idempotent_witness :
  IndexTs.unionsToIntersections
    (IndexTs.unionsToIntersections
       (IntersectionTypeNode
          [TypeReferenceNode (Identifier "A") None;
           ParenthesizedTypeNode
             (UnionTypeNode
                [Token SyntaxKind.StringKeyword;
                 Token SyntaxKind.NumberKeyword])]))
  = IndexTs.unionsToIntersections
      (IntersectionTypeNode
         [TypeReferenceNode (Identifier "A") None;
          ParenthesizedTypeNode
            (UnionTypeNode
               [Token SyntaxKind.StringKeyword;
                Token SyntaxKind.NumberKeyword])]).
Proof.
  exact (unionsToIntersections_idempotent
           (IntersectionTypeNode
              [TypeReferenceNode (Identifier "A") None;
               ParenthesizedTypeNode
                 (UnionTypeNode
                    [Token SyntaxKind.StringKeyword;
                     Token SyntaxKind.NumberKeyword])])
           eq_refl).
Defined.

Lemma filter_idempotent {A : Type} (p : A -> bool) (l : list A) :
  filter p (filter p l) = filter p l.
Proof.
  induction l as [|x rest IH]; simpl; [reflexivity|].
  destruct (p x) eqn:E; simpl; rewrite ?E, IH; reflexivity.
Qed.

(** X15. [renameTsconfigTypeAndRemoveOtherExports] of action.ts is
    idempotent: a second run finds the alias already named [Tsconfig]
    and only export keywords among the modifiers of the interfaces. *)
Theorem ActionTs_rename_idempotent (node : Node) :
  ActionTs.renameTsconfigTypeAndRemoveOtherExports
    (ActionTs.renameTsconfigTypeAndRemoveOtherExports node)
  = ActionTs.renameTsconfigTypeAndRemoveOtherExports node.
Proof.
  unfold ActionTs.renameTsconfigTypeAndRemoveOtherExports.
  set (f := fun statement : Node =>
    match statement with
    | TypeAliasDeclaration d m _ tp ty =>
        TypeAliasDeclaration d m (Identifier "Tsconfig") tp ty
    | InterfaceDeclaration d m n tp h ms =>
        InterfaceDeclaration d
          (option_map (filter (hasKind SyntaxKind.ExportKeyword)) m)
          n tp h ms
    | _ => statement
    end).
  assert (E : forall n,
            visitEachChild
              (fun statement =>
                 match statement with
                 | TypeAliasDeclaration d m _ tp ty =>
                     Some (TypeAliasDeclaration d m (Identifier "Tsconfig")
                             tp ty)
                 | InterfaceDeclaration d m n tp h ms =>
                     Some (InterfaceDeclaration d
                             (option_map
                                (filter (hasKind SyntaxKind.ExportKeyword)) m)
                             n tp h ms)
                 | _ => Some statement
                 end) n
            = visitEachChild (fun c => Some (f c)) n).
  { intro n. apply visitEachChild_ext. intros c _. destruct c; reflexivity. }
  rewrite !E, visitEachChild_total_compose.
  apply visitEachChild_ext. intros c _. f_equal.
  destruct c; try reflexivity. simpl.
  destruct modifiers as [l|]; simpl; [|reflexivity].
  now rewrite filter_idempotent.
Qed.

(** X16. [renameTsconfigTypeForceIntersectionsRemoveOtherExports] of
    index.ts is idempotent on a source file in which no union has a
    union as a direct member. *)
Theorem IndexTs_rename_idempotent (statements : list Node) :
  unionsAreFlat (SourceFile statements) = true ->
  IndexTs.renameTsconfigTypeForceIntersectionsRemoveOtherExports
    (IndexTs.renameTsconfigTypeForceIntersectionsRemoveOtherExports
       (SourceFile statements))
  = IndexTs.renameTsconfigTypeForceIntersectionsRemoveOtherExports
      (SourceFile statements).
Proof.
  intro Hflat.
  unfold IndexTs.renameTsconfigTypeForceIntersectionsRemoveOtherExports.
  set (f := fun statement : Node =>
    match statement with
    | TypeAliasDeclaration d m _ tp ty =>
        TypeAliasDeclaration d m (Identifier "Tsconfig") tp
          (IndexTs.unionsToIntersections ty)
    | InterfaceDeclaration d m n tp h ms =>
        InterfaceDeclaration d
          (option_map (filter (hasKind SyntaxKind.ExportKeyword)) m)
          n tp h ms
    | _ => statement
    end).
  assert (E : forall n,
            visitEachChild
              (fun statement =>
                 match statement with
                 | TypeAliasDeclaration d m _ tp ty =>
                     Some (TypeAliasDeclaration d m (Identifier "Tsconfig")
                             tp (IndexTs.unionsToIntersections ty))
                 | InterfaceDeclaration d m n tp h ms =>
                     Some (InterfaceDeclaration d
                             (option_map
                                (filter (hasKind SyntaxKind.ExportKeyword)) m)
                             n tp h ms)
                 | _ => Some statement
                 end) n
            = visitEachChild (fun c => Some (f c)) n).
  { intro n. apply visitEachChild_ext. intros c _. destruct c; reflexivity. }
  rewrite !E, visitEachChild_total_compose.
  apply visitEachChild_ext. intros c Hc. f_equal.
  assert (Hc' : unionsAreFlat c = true).
  { unfold unionsAreFlat in *. rewrite negb_true_iff in *.
    now apply (anywhere_false_children _ (SourceFile statements)). }
  destruct c; try reflexivity; simpl.
  - f_equal. apply unionsToIntersections_twice.
    unfold unionsAreFlat in *. rewrite negb_true_iff in *.
    apply (anywhere_false_children _ _ _ Hc').
    simpl. rewrite !in_app_iff. simpl. rewrite in_app_iff. simpl. tauto.
  - destruct modifiers as [l|]; simpl; [|reflexivity].
    now rewrite filter_idempotent.
Qed.

(** On [type Root = A & (B | C)] and [declare export interface A {}]. *)
Lemma IndexTs_rename_idempotent_witness :
  IndexTs.renameTsconfigTypeForceIntersectionsRemoveOtherExports
    (IndexTs.renameTsconfigTypeForceIntersectionsRemoveOtherExports
       (SourceFile
          [TypeAliasDeclaration None None (Identifier "Root") None
             (IntersectionTypeNode
                [TypeReferenceNode (Identifier "A") None;
                 ParenthesizedTypeNode
                   (UnionTypeNode
                      [TypeReferenceNode (Identifier "B") None;
                       TypeReferenceNode (Identifier "C") None])]);
           InterfaceDeclaration None
             (Some [Token SyntaxKind.DeclareKeyword;
                    Token SyntaxKind.ExportKeyword])
             (Identifier "A") None None []]))
  = IndexTs.renameTsconfigTypeForceIntersectionsRemoveOtherExports
      (SourceFile
         [TypeAliasDeclaration None None (Identifier "Root") None
            (IntersectionTypeNode
               [TypeReferenceNode (Identifier "A") None;
                ParenthesizedTypeNode
                  (UnionTypeNode
                     [TypeReferenceNode (Identifier "B") None;
                      TypeReferenceNode (Identifier "C") None])]);
          InterfaceDeclaration None
            (Some [Token SyntaxKind.DeclareKeyword;
                   Token SyntaxKind.ExportKeyword])
            (Identifier "A") None None []]).
Proof.
  match goal with
  | |- _ (_ (SourceFile ?statements)) = _ =>
      exact (IndexTs_rename_idempotent statements eq_refl)
  end.
Defined.

(** ** [removeUnknownIndexSignatures] *)

(** X17. The reducer of [removeUnknownIndexSignatures] leaves a shape
    without members exactly when the shape had none, or had two or more
    that were all string-keyed index signatures of value type [unknown]:
    the test for a sibling guards a sole signature only. *)
Theorem keptMembers_empty_iff (recurse : Node -> Node) (members : list Node) :
  keptMembers recurse members = []
  <-> members = []
      \/ (2 <= List.length members
          /\ forall member, In member members ->
               isStringKeyedUnknownIndexSignature member = true).
Proof.
  destruct members as [|m1 [|m2 rest]].
  - split; [now left | reflexivity].
  - rewrite keptMembers_sole. split; [discriminate|].
    intros [H | [H _]]; [discriminate | simpl in H; lia].
  - rewrite keptMembers_siblings by (simpl; lia).
    set (members := m1 :: m2 :: rest). split.
    + intro H. right. split; [simpl; lia|].
      intros member Hin.
      destruct (isStringKeyedUnknownIndexSignature member) eqn:E;
        [reflexivity|].
      assert (Hf : In member
                     (filter
                        (fun m => negb (isStringKeyedUnknownIndexSignature m))
                        members))
        by (apply filter_In; split; [exact Hin | now rewrite E]).
      apply (in_map recurse) in Hf. rewrite H in Hf. destruct Hf.
    + intros [H | [_ H]]; [discriminate|].
      clearbody members.
      induction members as [|m ms IH]; simpl; [reflexivity|].
      rewrite (H m (or_introl eq_refl)). simpl.
      apply IH. intros x Hx. apply H. now right.
Qed.

(** X18. [removeUnknownIndexSignatures] is idempotent in both variants:
    what it leaves has no index signature that a second run would
    remove. *)
Theorem removeUnknownIndexSignatures_idempotent (node : Node) :
  IndexTs.removeUnknownIndexSignatures
    (IndexTs.removeUnknownIndexSignatures node)
  = IndexTs.removeUnknownIndexSignatures node
  /\ ActionTs.removeUnknownIndexSignatures
       (ActionTs.removeUnknownIndexSignatures node)
     = ActionTs.removeUnknownIndexSignatures node.
Proof.
  split.
  - apply (pass_twice true IndexTs.removeUnknownIndexSignatures
             IndexTs_pass_eq).
  - apply (pass_twice false ActionTs.removeUnknownIndexSignatures
             ActionTs_pass_eq).
Qed.

(** ** The pipelines, statement by statement *)

Lemma ActionTs_rename_statements (statements : list Node) :
  ActionTs.renameTsconfigTypeAndRemoveOtherExports (SourceFile statements)
  = SourceFile (map (renameStatement (fun type => type)) statements).
Proof.
  unfold ActionTs.renameTsconfigTypeAndRemoveOtherExports. simpl.
  rewrite <- visitNodes_total. f_equal.
  apply visitNodes_ext. intros c _. destruct c; reflexivity.
Qed.

Lemma IndexTs_rename_statements (statements : list Node) :
  IndexTs.renameTsconfigTypeForceIntersectionsRemoveOtherExports
    (SourceFile statements)
  = SourceFile
      (map (renameStatement IndexTs.unionsToIntersections) statements).
Proof.
  unfold IndexTs.renameTsconfigTypeForceIntersectionsRemoveOtherExports.
  simpl. rewrite <- visitNodes_total. f_equal.
  apply visitNodes_ext. intros c _. destruct c; reflexivity.
Qed.

Lemma IndexTs_attach_statements (statements : list Node) :
  IndexTs.attachSchemaPropToTopLevel (SourceFile statements)
  = SourceFile (map attachStatement statements).
Proof.
  unfold IndexTs.attachSchemaPropToTopLevel. simpl.
  rewrite <- visitNodes_total. f_equal.
  apply visitNodes_ext. intros c _. destruct c; try reflexivity.
  unfold attachStatement, isInterfaceNamed.
  destruct (textOf c) as [text|]; [|reflexivity].
  destruct (String.eqb text _); reflexivity.
Qed.

Lemma removeStandaloneRecs_statements (statements : list Node) :
  removeStandaloneUnknownRecsInUnions (SourceFile statements)
  = SourceFile (map removeStandaloneUnknownRecsInUnions statements).
Proof. simpl. now rewrite visitNodes_total. Qed.

Lemma removeStringMerged_statements (statements : list Node) :
  removeStringMergedWithStringLiterals (SourceFile statements)
  = SourceFile (map mergedChild statements).
Proof.
  rewrite removeStringMergedWithStringLiterals_children. simpl.
  now rewrite visitNodes_total.
Qed.

Lemma removeUnknownIndexSignatures_statements (statements : list Node) :
  ActionTs.removeUnknownIndexSignatures (SourceFile statements)
  = SourceFile
      (map (shapeChild false ActionTs.removeUnknownIndexSignatures) statements)
  /\ IndexTs.removeUnknownIndexSignatures (SourceFile statements)
     = SourceFile
         (map (shapeChild true IndexTs.removeUnknownIndexSignatures)
            statements).
Proof.
  rewrite ActionTs_pass_eq, IndexTs_pass_eq. simpl.
  now rewrite !visitNodes_total.
Qed.

(** Each transformer returns the source file of the statements that its
    passes, in order, make of the statements of the input. *)
Lemma transformers_statements (statements : list Node) :
  ActionTs.transformer (SourceFile statements)
  = Returned (SourceFile (map statementOfAction statements))
  /\ IndexTs.transformer (SourceFile statements)
     = Returned (SourceFile (map statementOfIndex statements)).
Proof.
  unfold ActionTs.transformer, ActionTs.getTransformerFactories,
    IndexTs.transformer, IndexTs.getTransformerFactories.
  split.
  - rewrite transformerOver_cons, ActionTs_rename_statements. simpl.
    rewrite transformerOver_cons, removeStandaloneRecs_statements. simpl.
    rewrite transformerOver_cons, removeStringMerged_statements. simpl.
    rewrite transformerOver_cons,
      (proj1 (removeUnknownIndexSignatures_statements _)).
    simpl. rewrite !map_map. reflexivity.
  - rewrite transformerOver_cons, IndexTs_attach_statements. simpl.
    rewrite transformerOver_cons, IndexTs_rename_statements. simpl.
    rewrite transformerOver_cons, removeStandaloneRecs_statements. simpl.
    rewrite transformerOver_cons, removeStringMerged_statements. simpl.
    rewrite transformerOver_cons,
      (proj2 (removeUnknownIndexSignatures_statements _)).
    simpl. rewrite !map_map. reflexivity.
Qed.

Lemma visitNodesOpt_total (f : Node -> Node) (nodes : option (list Node)) :
  visitNodesOpt (fun c => Some (f c)) nodes = option_map (map f) nodes.
Proof. destruct nodes; simpl; [now rewrite visitNodes_total | reflexivity]. Qed.

(** The passes return a leaf as it is. *)
Lemma leaf_fixed (node : Node) :
  isLeaf node = true ->
  removeStandaloneUnknownRecsInUnions node = node
  /\ mergedChild node = node
  /\ shapeChild false ActionTs.removeUnknownIndexSignatures node = node
  /\ shapeChild true IndexTs.removeUnknownIndexSignatures node = node.
Proof.
  destruct node; simpl; intro H; try discriminate; repeat split; reflexivity.
Qed.

Lemma map_fixed (f : Node -> Node) (nodes : list Node) :
  (forall c, In c nodes -> f c = c) -> map f nodes = nodes.
Proof.
  intro H. rewrite <- (map_id nodes) at 2. now apply map_ext_in.
Qed.

(** The export keywords of a list of modifiers are leaves, which every
    later pass returns as they are. *)
Lemma export_modifiers_fixed (f : Node -> Node)
  (modifiers : option (list Node)) :
  (forall c, isLeaf c = true -> f c = c) ->
  option_map (map f)
    (option_map (filter (hasKind SyntaxKind.ExportKeyword)) modifiers)
  = option_map (filter (hasKind SyntaxKind.ExportKeyword)) modifiers.
Proof.
  intro H. destruct modifiers as [l|]; simpl; [|reflexivity].
  f_equal. apply map_fixed. intros c Hc.
  apply filter_In in Hc as [_ Hc]. apply H.
  destruct c; try discriminate; reflexivity.
Qed.

Lemma removeStandaloneRecs_alias
  (decorators modifiers : option (list Node)) (name : Node)
  (typeParameters : option (list Node)) (type : Node) :
  removeStandaloneUnknownRecsInUnions
    (TypeAliasDeclaration decorators modifiers name typeParameters type)
  = TypeAliasDeclaration
      (option_map (map removeStandaloneUnknownRecsInUnions) decorators)
      (option_map (map removeStandaloneUnknownRecsInUnions) modifiers)
      (removeStandaloneUnknownRecsInUnions name)
      (option_map (map removeStandaloneUnknownRecsInUnions) typeParameters)
      (removeStandaloneUnknownRecsInUnions type).
Proof. simpl. now rewrite !visitNodesOpt_total. Qed.

Lemma removeStandaloneRecs_interface
  (decorators modifiers : option (list Node)) (name : Node)
  (typeParameters heritageClauses : option (list Node))
  (members : list Node) :
  removeStandaloneUnknownRecsInUnions
    (InterfaceDeclaration decorators modifiers name typeParameters
       heritageClauses members)
  = InterfaceDeclaration
      (option_map (map removeStandaloneUnknownRecsInUnions) decorators)
      (option_map (map removeStandaloneUnknownRecsInUnions) modifiers)
      (removeStandaloneUnknownRecsInUnions name)
      (option_map (map removeStandaloneUnknownRecsInUnions) typeParameters)
      (option_map (map removeStandaloneUnknownRecsInUnions) heritageClauses)
      (map removeStandaloneUnknownRecsInUnions members).
Proof. simpl. now rewrite !visitNodesOpt_total, visitNodes_total. Qed.

Lemma mergedChild_alias
  (decorators modifiers : option (list Node)) (name : Node)
  (typeParameters : option (list Node)) (type : Node) :
  mergedChild
    (TypeAliasDeclaration decorators modifiers name typeParameters type)
  = TypeAliasDeclaration
      (option_map (map mergedChild) decorators)
      (option_map (map mergedChild) modifiers)
      (mergedChild name)
      (option_map (map mergedChild) typeParameters)
      (mergedChild type).
Proof.
  unfold mergedChild at 1.
  change (intersectsWithStringLiteral
            (TypeAliasDeclaration decorators modifiers name typeParameters
               type)) with false.
  cbv iota. rewrite removeStringMergedWithStringLiterals_children.
  cbn [visitEachChild]. now rewrite !visitNodesOpt_total.
Qed.

Lemma mergedChild_interface
  (decorators modifiers : option (list Node)) (name : Node)
  (typeParameters heritageClauses : option (list Node))
  (members : list Node) :
  mergedChild
    (InterfaceDeclaration decorators modifiers name typeParameters
       heritageClauses members)
  = InterfaceDeclaration
      (option_map (map mergedChild) decorators)
      (option_map (map mergedChild) modifiers)
      (mergedChild name)
      (option_map (map mergedChild) typeParameters)
      (option_map (map mergedChild) heritageClauses)
      (map mergedChild members).
Proof.
  unfold mergedChild at 1.
  change (intersectsWithStringLiteral
            (InterfaceDeclaration decorators modifiers name typeParameters
               heritageClauses members)) with false.
  cbv iota. rewrite removeStringMergedWithStringLiterals_children.
  cbn [visitEachChild]. now rewrite !visitNodesOpt_total, visitNodes_total.
Qed.

Lemma shapeChild_alias (keepHeader : bool) (pass : Node -> Node)
  (decorators modifiers : option (list Node)) (name : Node)
  (typeParameters : option (list Node)) (type : Node) :
  (forall node,
     pass node
     = visitEachChild (fun c => Some (shapeChild keepHeader pass c)) node) ->
  shapeChild keepHeader pass
    (TypeAliasDeclaration decorators modifiers name typeParameters type)
  = TypeAliasDeclaration
      (option_map (map (shapeChild keepHeader pass)) decorators)
      (option_map (map (shapeChild keepHeader pass)) modifiers)
      (shapeChild keepHeader pass name)
      (option_map (map (shapeChild keepHeader pass)) typeParameters)
      (shapeChild keepHeader pass type).
Proof.
  intro pass_eq. cbn [shapeChild]. rewrite pass_eq.
  cbn [visitEachChild]. now rewrite !visitNodesOpt_total.
Qed.

(** X19. In what either transformer returns, the statements are those of
    the input, one for one and in order; a type alias of the input comes
    out as a type alias whose name is the identifier [Tsconfig], no
    later pass touching the name, and an interface as an interface. *)
Theorem pipelines_publish_Tsconfig (statements : list Node) :
  (exists published,
      ActionTs.transformer (SourceFile statements)
      = Returned (SourceFile published)
      /\ Forall2 Published statements published)
  /\ (exists published,
        IndexTs.transformer (SourceFile statements)
        = Returned (SourceFile published)
        /\ Forall2 Published statements published).
Proof.
  destruct (transformers_statements statements) as [HA HI].
  split; eexists; (split; [eassumption|]);
    apply Forall2_map_r; intro s;
    destruct s; try exact I; unfold Published.
  - unfold statementOfAction. cbn [renameStatement].
    rewrite removeStandaloneRecs_alias, mergedChild_alias,
      (shapeChild_alias _ _ _ _ _ _ _ ActionTs_pass_eq).
    do 4 eexists. reflexivity.
  - unfold statementOfAction. cbn [renameStatement].
    rewrite removeStandaloneRecs_interface, mergedChild_interface.
    reflexivity.
  - unfold statementOfIndex. cbn [attachStatement renameStatement].
    rewrite removeStandaloneRecs_alias, mergedChild_alias,
      (shapeChild_alias _ _ _ _ _ _ _ IndexTs_pass_eq).
    do 4 eexists. reflexivity.
  - unfold statementOfIndex. cbn [attachStatement].
    destruct (isInterfaceNamed _ _); cbn [renameStatement];
      rewrite removeStandaloneRecs_interface, mergedChild_interface;
      reflexivity.
Qed.

(** X20. In what the transformer of index.ts returns, the modifiers of
    an interface are the export keywords among the modifiers it had in
    the input: the first pass filters them and no later pass changes
    them. *)
Theorem IndexTs_pipeline_keeps_export (statements : list Node) :
  exists published,
    IndexTs.transformer (SourceFile statements)
    = Returned (SourceFile published)
    /\ Forall2 ExportKept statements published.
Proof.
  destruct (transformers_statements statements) as [_ HI].
  eexists. split; [eassumption|].
  apply Forall2_map_r. intro s. destruct s; try exact I.
  unfold ExportKept, statementOfIndex. cbn [attachStatement].
  destruct (isInterfaceNamed _ _); cbn [renameStatement];
    rewrite removeStandaloneRecs_interface, mergedChild_interface;
    cbn [shapeChild];
    rewrite (export_modifiers_fixed removeStandaloneUnknownRecsInUnions)
      by (intros c Hc; now apply leaf_fixed);
    rewrite (export_modifiers_fixed mergedChild)
      by (intros c Hc; now apply leaf_fixed);
    do 5 eexists; reflexivity.
Qed.

(** X21. In what the transformer of action.ts returns, an interface has
    neither decorators nor modifiers, type parameters or heritage
    clauses: the export keyword that the first pass keeps is dropped by
    the last one. *)
Theorem ActionTs_pipeline_drops_headers (statements : list Node) :
  exists published,
    ActionTs.transformer (SourceFile statements)
    = Returned (SourceFile published)
    /\ Forall2 HeaderDropped statements published.
Proof.
  destruct (transformers_statements statements) as [HA _].
  eexists. split; [eassumption|].
  apply Forall2_map_r. intro s. destruct s; try exact I.
  unfold HeaderDropped, statementOfAction. cbn [renameStatement].
  rewrite removeStandaloneRecs_interface, mergedChild_interface.
  cbn [shapeChild]. do 2 eexists. reflexivity.
Qed.

Lemma reduceFrom_accumulates (recurse : Node -> Node) (members : list Node) :
  forall (rest : list Node) (i : Z) (acc : list Node),
    reduceFrom
      (fun acc cur i =>
         if isRemovableIndexSignature members cur i then acc
         else acc ++ [recurse cur])
      i rest acc
    = acc ++ reduceFrom
               (fun acc cur i =>
                  if isRemovableIndexSignature members cur i then acc
                  else acc ++ [recurse cur])
               i rest [].
Proof.
  induction rest as [|cur rest IH]; intros i acc; simpl.
  - now rewrite app_nil_r.
  - destruct (isRemovableIndexSignature members cur i).
    + apply IH.
    + rewrite IH. rewrite (IH (i + 1)%Z [recurse cur]).
      now rewrite app_assoc.
Qed.

(** A first member that is no index signature to remove stays first. *)
Lemma keptMembers_head (recurse : Node -> Node) (first : Node)
  (rest : list Node) :
  isStringKeyedUnknownIndexSignature first = false ->
  exists others, keptMembers recurse (first :: rest) = recurse first :: others.
Proof.
  intro H. unfold keptMembers, reduce. simpl.
  rewrite isRemovableIndexSignature_split, H. simpl.
  rewrite reduceFrom_accumulates. simpl. eauto.
Qed.

Lemma named_interface_name_is_leaf
  (decorators modifiers : option (list Node)) (name : Node)
  (typeParameters heritageClauses : option (list Node))
  (members : list Node) (text : string) :
  isInterfaceNamed text
    (InterfaceDeclaration decorators modifiers name typeParameters
       heritageClauses members) = true ->
  isLeaf name = true.
Proof. destruct name; simpl; intro H; try discriminate; reflexivity. Qed.

(** X22. In what the transformer of index.ts returns, the interface
    named [CompilerOptionsDefinition] still has that name and has the
    property [$schema] as its first member: none of the four passes
    after the injection moves, rewrites or removes it. *)
Theorem IndexTs_pipeline_schema_first (statements : list Node) :
  exists published,
    IndexTs.transformer (SourceFile statements)
    = Returned (SourceFile published)
    /\ Forall2 SchemaFirst statements published.
Proof.
  destruct (transformers_statements statements) as [_ HI].
  eexists. split; [eassumption|].
  apply Forall2_map_r. intros s Hnamed.
  destruct s; try discriminate.
  pose proof (named_interface_name_is_leaf _ _ _ _ _ _ _ Hnamed) as Hleaf.
  unfold statementOfIndex. cbn [attachStatement]. rewrite Hnamed.
  cbn [renameStatement].
  rewrite removeStandaloneRecs_interface, mergedChild_interface.
  cbn [shapeChild membersOf isInterfaceNamed].
  destruct (leaf_fixed s Hleaf) as (-> & -> & _).
  split; [exact Hnamed|].
  cbn [map].
  replace (removeStandaloneUnknownRecsInUnions IndexTs.schemaProp)
    with IndexTs.schemaProp by reflexivity.
  replace (mergedChild IndexTs.schemaProp)
    with IndexTs.schemaProp by reflexivity.
  destruct (keptMembers_head IndexTs.removeUnknownIndexSignatures
              IndexTs.schemaProp
              (map mergedChild
                 (map removeStandaloneUnknownRecsInUnions members))
              eq_refl) as [others ->].
  exists others. reflexivity.
Qed.

(** ** No pass after [unionsToIntersections] brings a union back *)

Lemma removeStandaloneRecs_union_free (node : Node) :
  containsUnion node = false ->
  removeStandaloneUnknownRecsInUnions node = node.
Proof.
  unfold containsUnion.
  induction node as [node IH] using Node_children_ind. intro H.
  rewrite removeStandaloneUnknownRecsInUnions_not_union
    by now apply anywhere_false_here in H.
  unfold keptMember. rewrite <- (visitEachChild_id node) at 2.
  apply visitEachChild_ext. intros c Hc. f_equal.
  apply IH; [exact Hc|]. now apply (anywhere_false_children _ node).
Qed.

Lemma existsb_visitNodes_false (p : Node -> bool) (v : Visitor)
  (nodes : list Node) :
  (forall c c', In c nodes -> v c = Some c' -> p c' = false) ->
  existsb p (visitNodes v nodes) = false.
Proof.
  induction nodes as [|n rest IH]; simpl; intro H; [reflexivity|].
  assert (IH' := IH (fun c c' Hc => H c c' (or_intror Hc))).
  destruct (v n) as [n'|] eqn:E; simpl; [|exact IH'].
  now rewrite (H n n' (or_introl eq_refl) E).
Qed.

Lemma removeWideStrings_union_free (node : Node) :
  containsUnion node = false ->
  containsUnion (removeWideStrings node) = false.
Proof.
  unfold containsUnion.
  induction node as [node IH] using Node_children_ind. intro H.
  destruct node; try exact H.
  - rewrite removeWideStrings_intersection, anywhere_children. simpl.
    apply existsb_visitNodes_false. intros c c' Hc. unfold visitWideStrings.
    destruct (hasKind _ c); [discriminate|]. intros [= <-].
    apply IH; [exact Hc|].
    now apply (anywhere_false_children _ (IntersectionTypeNode types)).
  - rewrite removeWideStrings_parenthesized. apply IH; [now left|].
    apply (anywhere_false_children _ _ _ H). now left.
Qed.

Lemma removeStringMerged_union_free_sized (m : nat) :
  forall node, size node <= m ->
    containsUnion node = false ->
    containsUnion (removeStringMergedWithStringLiterals node) = false.
Proof.
  unfold containsUnion.
  induction m as [|m IH]; intros node Hm H.
  - pose proof (size_pos node). lia.
  - rewrite removeStringMergedWithStringLiterals_children.
    rewrite anywhere_children, isUnionTypeNode_visitEachChild,
      children_visitEachChild_total.
    rewrite (anywhere_false_here _ _ H). simpl.
    apply existsb_false_iff. intros c' Hc'.
    apply in_map_iff in Hc' as (c & <- & Hc).
    pose proof (anywhere_false_children _ _ _ H Hc) as Hfree.
    apply size_children in Hc.
    pose proof (size_removeWideStrings c).
    unfold mergedChild. destruct (intersectsWithStringLiteral c).
    + apply IH; [lia|]. now apply removeWideStrings_union_free.
    + apply IH; [lia | exact Hfree].
Qed.

Lemma mergedChild_union_free (node : Node) :
  containsUnion node = false -> containsUnion (mergedChild node) = false.
Proof.
  intro H. unfold mergedChild.
  destruct (intersectsWithStringLiteral node).
  - apply (removeStringMerged_union_free_sized
             (size (removeWideStrings node))); [lia|].
    now apply removeWideStrings_union_free.
  - now apply (removeStringMerged_union_free_sized (size node)).
Qed.

Lemma shapeChild_union_free (node : Node) :
  containsUnion node = false ->
  containsUnion (IndexTs.removeUnknownIndexSignatures node) = false
  /\ containsUnion (shapeChild true IndexTs.removeUnknownIndexSignatures node)
     = false.
Proof.
  unfold containsUnion.
  induction node as [node IH] using Node_children_ind. intro H.
  assert (Hpass : anywhere isUnionTypeNode
                    (IndexTs.removeUnknownIndexSignatures node) = false).
  { rewrite IndexTs_pass_eq.
    rewrite anywhere_children, isUnionTypeNode_visitEachChild,
      children_visitEachChild_total.
    rewrite (anywhere_false_here _ _ H). simpl.
    apply existsb_false_iff. intros c' Hc'.
    apply in_map_iff in Hc' as (c & <- & Hc).
    apply IH; [exact Hc|]. now apply (anywhere_false_children _ node). }
  split; [exact Hpass|].
  destruct (isShape node) eqn:E;
    [|now rewrite (shapeChild_not_shape true _ node E)].
  assert (Hkept : forall members,
            (forall m, In m members -> In m (children node)) ->
            forall x,
              In x (keptMembers IndexTs.removeUnknownIndexSignatures members)
              -> anywhere isUnionTypeNode x = false).
  { intros members Hsub x Hx.
    apply In_keptMembers in Hx as (m & Hm & ->).
    apply IH; [now apply Hsub|].
    apply (anywhere_false_children _ node); [exact H | now apply Hsub]. }
  destruct node; try discriminate; cbn [shapeChild];
    rewrite anywhere_children; simpl;
    apply existsb_false_iff; intros c Hc.
  - apply (Hkept members); [intros m Hm; exact Hm | exact Hc].
  - simpl in Hkept.
    rewrite ?in_app_iff in Hc. simpl in Hc. rewrite ?in_app_iff in Hc.
    assert (Hin : In c (keptMembers IndexTs.removeUnknownIndexSignatures
                          members)
                  \/ In c (children
                            (InterfaceDeclaration decorators modifiers node
                               typeParameters heritageClauses [])))
      by (simpl; rewrite ?in_app_iff; simpl; rewrite ?in_app_iff;
          simpl; tauto).
    destruct Hin as [Hin | Hin].
    + apply (Hkept members); [|exact Hin].
      intros m Hm. rewrite ?in_app_iff. simpl. rewrite ?in_app_iff. tauto.
    + apply (anywhere_false_children _ _ _ H).
      simpl in *. rewrite ?in_app_iff in *. simpl in *.
      rewrite ?in_app_iff in *. simpl in *. tauto.
Qed.

(** X23. In what the transformer of index.ts returns, the definition of
    a type alias has no union type node left, provided the definition of
    the input is not itself a union and none of its unions has a union
    as a direct member: [unionsToIntersections] rewrites them all and no
    later pass brings one back. *)
Theorem IndexTs_pipeline_leaves_no_union (statements : list Node) :
  exists published,
    IndexTs.transformer (SourceFile statements)
    = Returned (SourceFile published)
    /\ Forall2 NoUnionLeft statements published.
Proof.
  destruct (transformers_statements statements) as [_ HI].
  eexists. split; [eassumption|].
  apply Forall2_map_r. intro s. destruct s; try exact I.
  intros Hflat Hroot.
  unfold statementOfIndex. cbn [attachStatement renameStatement].
  rewrite removeStandaloneRecs_alias, mergedChild_alias,
    (shapeChild_alias _ _ _ _ _ _ _ IndexTs_pass_eq).
  do 4 eexists. split; [reflexivity|].
  apply shapeChild_union_free, mergedChild_union_free.
  match goal with
  | |- context [IndexTs.unionsToIntersections ?type] =>
      assert (Hfree : containsUnion (IndexTs.unionsToIntersections type)
                      = false)
        by (rewrite <- visitUnion_not_union by exact Hroot;
            now apply visitUnion_no_union)
  end.
  now rewrite removeStandaloneRecs_union_free.
Qed.
